(** * fastapi/applications.py: the route table of a [FastAPI] application

    A shallow embedding of class [FastAPI] (constructor, [add_route],
    [include_router]) over an explicit Python heap, and the properties of
    route registration and router inclusion.

    Python values are references.  Route objects, route tables (lists),
    routers and applications are mutable objects that several owners can
    share, so they live in a heap indexed by locations; the attributes that
    this module only ever rebinds to fresh values ([path], [tags], [methods])
    are kept as immutable values inside the object. *)

From stdpp Require Import gmap strings list fin_maps.

(** ** Objects and heap *)

Definition loc := positive.

(** Modelled from the spec: class [APIRoute] of [fastapi.routing] is imported
    by applications.py but its declaration is not part of the sources.  The
    fields are those of the Route record of the data model (path, handler,
    methods, name, visibility flag, tags), named after the keyword arguments
    that [add_route] passes and the attributes that [include_router] reads.
    [tags] is a list, as [route.tags + tags] requires. *)
Record APIRoute := mkAPIRoute {
  path : string;
  endpoint : loc;
  methods : list string;
  name : option string;
  include_in_schema : bool;
  tags : list string
}.

(** Modelled from the spec: class [APIRouter] of [fastapi.routing], of which
    this module only uses the attribute [routes], the router's route table. *)
Record APIRouter := mkAPIRouter {
  router_routes : loc
}.

(** The attributes assigned by [FastAPI.__init__] (lines 45-54). *)
Record FastAPI := mkFastAPI {
  debug : bool;
  title : string;
  description : string;
  version : string;
  openapi_url : option string;
  openapi_tags : list loc;
  docs_url : option string;
  redoc_url : option string;
  routes : loc;
  extra : list (string * loc)
}.

(** Heap objects.  [OOther] stands for every object that is none of the
    above: endpoint callables, mounted sub-applications, static mounts. *)
Inductive object :=
| OFastAPI (a : FastAPI)
| OAPIRouter (r : APIRouter)
| OAPIRoute (r : APIRoute)
| OList (l : list loc)
| OOther.

Abbreviation heap := (gmap loc object).

(** ** Outcomes and the heap monad *)

(** [BadHeap] is raised on a reference to an unallocated location, which no
    Python program can hold. *)
Inductive exn := AttributeError | TypeError | BadHeap.

Inductive result (A : Type) :=
| Ok (a : A)
| Raise (e : exn)
| OutOfFuel.
Arguments Ok {A} a.
Arguments Raise {A} e.
Arguments OutOfFuel {A}.

Definition M (A : Type) : Type := heap → result (A * heap).

#[global] Instance M_ret : MRet M := λ A a h, Ok (a, h).

#[global] Instance M_bind : MBind M := λ A B f m h,
  match m h with
  | Ok (a, h') => f a h'
  | Raise e => Raise e
  | OutOfFuel => OutOfFuel
  end.

Definition raise {A} (e : exn) : M A := λ _, Raise e.

Definition out_of_fuel {A} : M A := λ _, OutOfFuel.

Definition load (l : loc) : M object := λ h,
  match h !! l with
  | Some o => Ok (o, h)
  | None => Raise BadHeap
  end.

Definition store (l : loc) (o : object) : M unit := λ h, Ok (tt, <[l:=o]> h).

Definition alloc (o : object) : M loc := λ h,
  let l := fresh (dom h) in Ok (l, <[l:=o]> h).

(** ** Python primitives used by the module *)

(** [x.routes]: applications and routers carry the attribute; the other
    objects of the model do not. *)
Definition getattr_routes (x : loc) : M loc :=
  o ← load x;
  match o with
  | OFastAPI a => mret (routes a)
  | OAPIRouter r => mret (router_routes r)
  | _ => raise AttributeError
  end.

(** [lst.append(x)]: mutates the list object in place. *)
Definition list_append (lst x : loc) : M unit :=
  o ← load lst;
  match o with
  | OList l => store lst (OList (l ++ [x]))
  | _ => raise AttributeError
  end.

(** Truth value of an [Optional[List[...]]]: [None] and [[]] are false. *)
Definition truthy {A} (x : option (list A)) : bool :=
  match x with
  | Some (_ :: _) => true
  | _ => false
  end.

(** [x or d] for an [Optional[List[...]]] [x] and a list [d]. *)
Definition or_list {A} (x : option (list A)) (d : list A) : list A :=
  match x with
  | Some (a :: l) => a :: l
  | _ => d
  end.

(** [for x in lst: body(x)].  The list iterator keeps an index and compares
    it with the current length of the list object at every step, so a body
    that appends to [lst] is seen by the loop.  Of the objects of the model
    only lists are iterable.  One unit of fuel is spent on each test of the
    index, the last one included. *)
Fixpoint for_each (fuel : nat) (body : loc → M unit) (lst : loc) (i : nat)
  : M unit :=
  match fuel with
  | O => out_of_fuel
  | S fuel' =>
      o ← load lst;
      match o with
      | OList l =>
          match l !! i with
          | Some x => body x;; for_each fuel' body lst (S i)
          | None => mret tt
          end
      | _ => raise TypeError
      end
  end.

(** [list(set(xs))]: the elements of [xs] without repetition, in the
    iteration order of the set, which the language leaves open. *)
Class SetIteration := {
  list_of_set : list string → list string;
  list_of_set_NoDup : ∀ xs, NoDup (list_of_set xs);
  list_of_set_elem : ∀ xs x, x ∈ list_of_set xs ↔ x ∈ xs
}.

(** ** FastAPI.__init__ (lines 16-54) *)

(** [routes or []]: the caller's list object is stored as it is unless it is
    empty (or absent), in which case a new empty list is created. *)
Definition routes_or_new (routes : option loc) : M loc :=
  match routes with
  | None => alloc (OList [])
  | Some l =>
      o ← load l;
      match o with
      | OList [] => alloc (OList [])
      | _ => mret l
      end
  end.

(** The new application object is allocated once its fields are known; the
    list created by [routes or []] is allocated before it. *)
Definition FastAPI_init (debug : bool) (routes : option loc)
    (title description version : string) (openapi_url : option string)
    (openapi_tags : option (list loc)) (docs_url redoc_url : option string)
    (extra : list (string * loc)) : M loc :=
  lst ← routes_or_new routes;
  alloc (OFastAPI {|
    debug := debug;
    title := title;
    description := description;
    version := version;
    openapi_url := openapi_url;
    openapi_tags := or_list openapi_tags [];
    docs_url := docs_url;
    redoc_url := redoc_url;
    routes := lst;
    extra := extra |}).

(** The constructor called with [routes] as its only argument. *)
Definition FastAPI_with_routes (routes : option loc) : M loc :=
  FastAPI_init false routes "FastAPI" "" "0.1.0" (Some "/openapi.json") None
    (Some "/docs") (Some "/redoc") [].

(** ** FastAPI.add_route (lines 56-82) *)

Section AddRoute.

(** The tags of a route that was constructed without a [tags] argument: a
    default of the absent class [APIRoute]. *)
Variable default_tags : list string.

(** Modelled from the spec: the constructor of [APIRoute] stores its keyword
    arguments in the fields of the same name. *)
Definition APIRoute_init (path : string) (endpoint : loc)
    (methods : list string) (name : option string) (include_in_schema : bool)
  : APIRoute :=
  {| path := path;
     endpoint := endpoint;
     methods := methods;
     name := name;
     include_in_schema := include_in_schema;
     tags := default_tags |}.

Definition add_route (self : loc) (path : string) (endpoint : loc)
    (methods : option (list string)) (name : option string)
    (include_in_schema : bool) : M unit :=
  route ← alloc (OAPIRoute
    (APIRoute_init path endpoint (or_list methods ["GET"]) name
       include_in_schema));
  lst ← getattr_routes self;
  list_append lst route.

(** The keyword arguments of a call: [None] is an argument left out. *)
Record add_route_kwargs := mk_add_route_kwargs {
  kw_methods : option (option (list string));
  kw_name : option (option string);
  kw_include_in_schema : option bool
}.

(** A call [self.add_route(path, endpoint, **kw)]: arguments left out take
    the defaults of the signature (lines 61-63). *)
Definition call_add_route (self : loc) (path : string) (endpoint : loc)
    (kw : add_route_kwargs) : M unit :=
  add_route self path endpoint
    (default None (kw_methods kw))
    (default None (kw_name kw))
    (default true (kw_include_in_schema kw)).

End AddRoute.

(** ** FastAPI.include_router (lines 84-108) *)

Section IncludeRouter.

Context `{SetIteration}.

(** Lines 105-107 on one route object: [route.path = prefix + route.path]
    and, when [tags] is true, [route.tags = list(set(route.tags + tags))]. *)
Definition import_route (prefix : string) (tags' : option (list string))
    (r : APIRoute) : APIRoute :=
  {| path := prefix +:+ path r;
     endpoint := endpoint r;
     methods := methods r;
     name := name r;
     include_in_schema := include_in_schema r;
     tags := if truthy tags'
             then list_of_set (tags r ++ default [] tags')
             else tags r |}.

(** The loop body, lines 104-108. *)
Definition visit (self : loc) (prefix : string) (tags : option (list string))
    (route : loc) : M unit :=
  o ← load route;
  match o with
  | OAPIRoute r =>
      store route (OAPIRoute (import_route prefix tags r));;
      lst ← getattr_routes self;
      list_append lst route
  | _ => mret tt
  end.

(** The arguments [dependencies] and [responses] of the signature are never
    read by the body and are left out. *)
Definition include_router (fuel : nat) (self router : loc) (prefix : string)
    (tags : option (list string)) : M unit :=
  lst ← getattr_routes router;
  for_each fuel (visit self prefix tags) lst 0.

End IncludeRouter.

(** ** Observations on a heap *)

(** The route object at a location, if the location holds one:
    [isinstance(x, APIRoute)] together with the object's fields. *)
Definition route_at (h : heap) (x : loc) : option APIRoute :=
  match h !! x with
  | Some (OAPIRoute r) => Some r
  | _ => None
  end.

Definition list_at (h : heap) (x : loc) : option (list loc) :=
  match h !! x with
  | Some (OList l) => Some l
  | _ => None
  end.

(** The value of [x.routes], a reference to a list object. *)
Definition routes_of (h : heap) (x : loc) : option loc :=
  match h !! x with
  | Some (OFastAPI a) => Some (routes a)
  | Some (OAPIRouter r) => Some (router_routes r)
  | _ => None
  end.

(** The route table of an application or router: the entries of the list
    that [x.routes] refers to. *)
Definition table (h : heap) (x : loc) : option (list loc) :=
  lst ← routes_of h x; list_at h lst.

(** The entries of a list that hold route objects, in the order of the list:
    the entries that pass [isinstance(route, APIRoute)]. *)
Definition concrete_routes (h : heap) (l : list loc) : list loc :=
  filter (λ x, is_Some (route_at h x)) l.

(** Number of occurrences of a reference in a route table. *)
Definition times (x : loc) (l : list loc) : nat :=
  length (filter (λ y, y = x) l).

(** [s] repeated [k] times in front of [t]. *)
Fixpoint prefixed (k : nat) (s t : string) : string :=
  match k with
  | O => t
  | S k' => s +:+ prefixed k' s t
  end.

Section IncludeRouterUnrolled.

Context `{SetIteration}.

(** The loop body run on the entries of a fixed list, one after the other:
    what the loop of [include_router] computes when the list it iterates
    over does not change under its feet. *)
Fixpoint visit_all (self : loc) (prefix : string)
    (tags' : option (list string)) (l : list loc) : M unit :=
  match l with
  | [] => mret tt
  | x :: l' => visit self prefix tags' x;; visit_all self prefix tags' l'
  end.

End IncludeRouterUnrolled.

(** The conditions under which a call of [include_router] returns: both
    objects carry a route table, the two tables are different list objects,
    the entries of the router's table are allocated, and the fuel covers
    the length of the router's table. *)
Definition include_pre (h : heap) (self router : loc) (fuel : nat) : Prop :=
  ∃ lr rl la al,
    routes_of h router = Some lr ∧ h !! lr = Some (OList rl) ∧
    routes_of h self = Some la ∧ h !! la = Some (OList al) ∧
    la ≠ lr ∧ (∀ x, x ∈ rl → is_Some (h !! x)) ∧ length rl < fuel.

(** A sample iteration order for sets of strings: first occurrences. *)
#[local] Program Instance first_occurrence_order : SetIteration :=
  {| list_of_set := remove_dups |}.
Next Obligation. apply NoDup_remove_dups. Qed.
Next Obligation. intros. apply elem_of_remove_dups. Qed.

(** ** Sample heaps *)

(** An application without routes (1), a router (3) whose table holds a
    route, a mounted sub-application and a second route, and a second
    application (10) that has one route of its own (12).  Locations 8 and 9
    are the handlers. *)
Definition example_heap : heap :=
  list_to_map [
    (1%positive, OFastAPI (mkFastAPI false "A" "" "0.1.0"
                    (Some "/openapi.json") [] (Some "/docs") (Some "/redoc")
                    2%positive []));
    (2%positive, OList []);
    (3%positive, OAPIRouter (mkAPIRouter 4%positive));
    (4%positive, OList [5%positive; 6%positive; 7%positive]);
    (5%positive, OAPIRoute (mkAPIRoute "/items" 8%positive ["GET"] None true
                    ["x"]));
    (6%positive, OOther);
    (7%positive, OAPIRoute (mkAPIRoute "/items/{id}" 9%positive
                    ["GET"; "DELETE"] None true []));
    (8%positive, OOther);
    (9%positive, OOther);
    (10%positive, OFastAPI (mkFastAPI false "B" "" "0.1.0"
                    (Some "/openapi.json") [] (Some "/docs") (Some "/redoc")
                    11%positive []));
    (11%positive, OList [12%positive]);
    (12%positive, OAPIRoute (mkAPIRoute "/health" 9%positive ["GET"]
                    (Some "health") false ["ops"]))
  ].

(** A router (1) with one route (3), before an application is built on the
    router's own list (2) by [FastAPI(routes=router.routes)]. *)
Definition router_only_heap : heap :=
  list_to_map [
    (1%positive, OAPIRouter (mkAPIRouter 2%positive));
    (2%positive, OList [3%positive]);
    (3%positive, OAPIRoute (mkAPIRoute "/items" 4%positive ["GET"] None true
                    []));
    (4%positive, OOther)
  ].

(** A router (3) whose table lists the same route object (5) twice. *)
Definition repeated_entry_heap : heap :=
  list_to_map [
    (1%positive, OFastAPI (mkFastAPI false "A" "" "0.1.0"
                    (Some "/openapi.json") [] (Some "/docs") (Some "/redoc")
                    2%positive []));
    (2%positive, OList []);
    (3%positive, OAPIRouter (mkAPIRouter 4%positive));
    (4%positive, OList [5%positive; 5%positive]);
    (5%positive, OAPIRoute (mkAPIRoute "/items" 6%positive ["GET"] None true
                    []));
    (6%positive, OOther)
  ].

(** A router (3) with an empty table. *)
Definition empty_router_heap : heap :=
  list_to_map [
    (1%positive, OFastAPI (mkFastAPI false "A" "" "0.1.0"
                    (Some "/openapi.json") [] (Some "/docs") (Some "/redoc")
                    2%positive []));
    (2%positive, OList [5%positive]);
    (3%positive, OAPIRouter (mkAPIRouter 4%positive));
    (4%positive, OList []);
    (5%positive, OAPIRoute (mkAPIRoute "/health" 6%positive ["GET"] None true
                    []));
    (6%positive, OOther)
  ].

(** ** Calls with default arguments, and sequences of calls *)

Section Calls.

Context `{SetIteration}.



End Calls.

(** One call [self.add_route(path, endpoint, **kw)] of a setup script. *)
Record registration := mk_registration {
  reg_path : string;
  reg_endpoint : loc;
  reg_kw : add_route_kwargs
}.

(** The calls of a setup script on one application, in order. *)
Fixpoint add_routes (default_tags : list string) (self : loc)
    (regs : list registration) : M unit :=
  match regs with
  | [] => mret tt
  | reg :: regs' =>
      call_add_route default_tags self (reg_path reg) (reg_endpoint reg)
        (reg_kw reg);;
      add_routes default_tags self regs'
  end.

(** The route object that one call of a setup script creates. *)
Definition registered_route (default_tags : list string) (reg : registration)
  : APIRoute :=
  APIRoute_init default_tags (reg_path reg) (reg_endpoint reg)
    (or_list (default None (kw_methods (reg_kw reg))) ["GET"])
    (default None (kw_name (reg_kw reg)))
    (default true (kw_include_in_schema (reg_kw reg))).

(** A router (3) whose table holds two mounted sub-applications and no
    route, and an application (1) with one route. *)
Definition mounts_only_heap : heap :=
  list_to_map [
    (1%positive, OFastAPI (mkFastAPI false "A" "" "0.1.0"
                    (Some "/openapi.json") [] (Some "/docs") (Some "/redoc")
                    2%positive []));
    (2%positive, OList [5%positive]);
    (3%positive, OAPIRouter (mkAPIRouter 4%positive));
    (4%positive, OList [7%positive; 8%positive]);
    (5%positive, OAPIRoute (mkAPIRoute "/health" 6%positive ["GET"] None true
                    []));
    (6%positive, OOther);
    (7%positive, OOther);
    (8%positive, OOther)
  ].

(** * Properties *)

(** ** The heap monad *)

Lemma bind_Ok {A B} (m : M A) (f : A → M B) h b h' :
  (x ← m; f x) h = Ok (b, h') ↔ ∃ a h1, m h = Ok (a, h1) ∧ f a h1 = Ok (b, h').
Proof.
  unfold mbind, M_bind. split.
  - destruct (m h) as [[a h1]| |]; [eauto|done..].
  - intros (a & h1 & -> & ?). done.
Qed.

Lemma getattr_routes_Ok x h l h' :
  getattr_routes x h = Ok (l, h') ↔ routes_of h x = Some l ∧ h' = h.
Proof.
  unfold getattr_routes, routes_of, mbind, M_bind, load, mret, M_ret, raise.
  destruct (h !! x) as [[]|]; split;
    first [by intros [? ?]|intros [= <- <-]; done|intros [[= <-] ->]; done].
Qed.

Lemma list_append_Ok lst x h u h' :
  list_append lst x h = Ok (u, h') ↔
  ∃ l, h !! lst = Some (OList l) ∧ h' = <[lst:=OList (l ++ [x])]> h.
Proof.
  unfold list_append, mbind, M_bind, load, store, raise. destruct u.
  destruct (h !! lst) as [[]|]; split;
    first [by intros (? & ? & ?)|intros [= <-]; by eauto
          |intros (? & [= <-] & ->); done].
Qed.

(** ** The loop body *)

Section VisitProperties.

Context `{SetIteration}.

Implicit Types (h : heap) (x r self lst : loc) (l : list loc).

(** A location that holds no route object is skipped. *)
Lemma visit_skip self prefix tags' x h o :
  h !! x = Some o → route_at h x = None →
  visit self prefix tags' x h = Ok (tt, h).
Proof.
  unfold visit, route_at, mbind, M_bind, load. intros -> Hr.
  by destruct o.
Qed.

(** A route object is rewritten in place and its reference appended to the
    table of [self]. *)
Lemma visit_route self prefix tags' x h rt la al :
  h !! x = Some (OAPIRoute rt) → routes_of h self = Some la →
  h !! la = Some (OList al) →
  visit self prefix tags' x h =
    Ok (tt, <[la:=OList (al ++ [x])]>
              (<[x:=OAPIRoute (import_route prefix tags' rt)]> h)).
Proof.
  intros Hx Hs Hl.
  assert (x ≠ self) as Hxs by (intros ->; unfold routes_of in Hs; by rewrite Hx in Hs).
  assert (x ≠ la) as Hxl by (intros ->; congruence).
  unfold visit, mbind, M_bind, load, store. rewrite Hx. simpl.
  unfold getattr_routes, list_append, mbind, M_bind, load, store.
  unfold routes_of in Hs. rewrite lookup_insert_ne by done.
  destruct (h !! self) as [[]|] eqn:E; simplify_eq; simpl;
    rewrite lookup_insert_ne by done; by rewrite Hl.
Qed.

(** Every returning run of the body is one of the two above. *)
Lemma visit_Ok self prefix tags' x h u h' :
  visit self prefix tags' x h = Ok (u, h') →
  (is_Some (h !! x) ∧ route_at h x = None ∧ h' = h) ∨
  (∃ rt la al, h !! x = Some (OAPIRoute rt) ∧ routes_of h self = Some la ∧
     h !! la = Some (OList al) ∧
     h' = <[la:=OList (al ++ [x])]>
            (<[x:=OAPIRoute (import_route prefix tags' rt)]> h)).
Proof.
  destruct u. intros Hv.
  destruct (h !! x) as [o|] eqn:Hx.
  2:{ unfold visit, mbind, M_bind, load in Hv. by rewrite Hx in Hv. }
  destruct (route_at h x) as [rt|] eqn:Hr.
  - right. unfold route_at in Hr. rewrite Hx in Hr.
    destruct o; simplify_eq.
    assert (∃ la, routes_of h self = Some la) as [la Hs].
    { unfold visit, mbind, M_bind, load, store in Hv. rewrite Hx in Hv.
      simpl in Hv.
      destruct (getattr_routes self (<[x:=OAPIRoute (import_route prefix tags' rt)]> h))
        as [[la h1]| |] eqn:Hg; try done.
      apply getattr_routes_Ok in Hg as [Hg ->].
      unfold routes_of in *.
      destruct (decide (x = self)) as [->|Hne].
      - by rewrite lookup_insert_eq in Hg.
      - rewrite lookup_insert_ne in Hg by done. eauto. }
    assert (∃ al, h !! la = Some (OList al)) as [al Hl].
    { unfold visit, mbind, M_bind, load, store in Hv. rewrite Hx in Hv.
      simpl in Hv.
      destruct (getattr_routes self (<[x:=OAPIRoute (import_route prefix tags' rt)]> h))
        as [[la' h1]| |] eqn:Hg; try done.
      apply getattr_routes_Ok in Hg as [Hg ->].
      assert (x ≠ self) by (intros ->; unfold routes_of in Hs; by rewrite Hx in Hs).
      unfold routes_of in Hg, Hs. rewrite lookup_insert_ne in Hg by done.
      assert (la' = la) as -> by congruence.
      apply list_append_Ok in Hv as (al & Hl & _).
      destruct (decide (x = la)) as [->|Hne].
      - by rewrite lookup_insert_eq in Hl.
      - rewrite lookup_insert_ne in Hl by done. eauto. }
    exists rt, la, al. split_and!; try done.
    rewrite (visit_route _ _ _ _ _ _ _ _ Hx Hs Hl) in Hv. congruence.
  - left. rewrite (visit_skip _ _ _ _ _ _ Hx Hr) in Hv.
    injection Hv as <-. eauto.
Qed.

End VisitProperties.

(** ** The unrolled loop *)

Section VisitAllProperties.

Context `{SetIteration}.

Implicit Types (h : heap) (x r self lst : loc) (l : list loc).

Lemma times_cons_eq x l : times x (x :: l) = S (times x l).
Proof. unfold times. by rewrite filter_cons_True. Qed.

Lemma times_cons_ne x y l : y ≠ x → times x (y :: l) = times x l.
Proof. intros. unfold times. by rewrite filter_cons_False. Qed.

Lemma times_pos x l : x ∈ l → 0 < times x l.
Proof.
  induction 1 as [|y z l ? IH].
  - rewrite times_cons_eq. lia.
  - destruct (decide (z = y)) as [->|].
    + rewrite times_cons_eq. lia.
    + by rewrite times_cons_ne.
Qed.

(** The body changes no object into an object of another class, allocates
    nothing and rebinds no [routes] attribute. *)
Lemma visit_route_at self prefix tags' x h u h' y :
  visit self prefix tags' x h = Ok (u, h') →
  is_Some (route_at h' y) ↔ is_Some (route_at h y).
Proof.
  intros [(_ & _ & ->)|(rt & la & al & Hx & Hs & Hl & ->)]%visit_Ok; [done|].
  unfold route_at.
  destruct (decide (y = la)) as [->|]; [rewrite lookup_insert_eq, Hl|
    rewrite lookup_insert_ne by done;
    destruct (decide (y = x)) as [->|];
      [rewrite lookup_insert_eq, Hx|by rewrite lookup_insert_ne by done]];
    split; intros [? ?]; by eauto.
Qed.

Lemma visit_routes_of self prefix tags' x h u h' y :
  visit self prefix tags' x h = Ok (u, h') → routes_of h' y = routes_of h y.
Proof.
  intros [(_ & _ & ->)|(rt & la & al & Hx & Hs & Hl & ->)]%visit_Ok; [done|].
  unfold routes_of.
  destruct (decide (y = la)) as [->|]; [by rewrite lookup_insert_eq, Hl|].
  rewrite lookup_insert_ne by done.
  destruct (decide (y = x)) as [->|]; [by rewrite lookup_insert_eq, Hx|].
  by rewrite lookup_insert_ne by done.
Qed.

Lemma visit_allocated self prefix tags' x h u h' y :
  visit self prefix tags' x h = Ok (u, h') →
  is_Some (h !! y) → is_Some (h' !! y).
Proof.
  intros [(_ & _ & ->)|(rt & la & al & Hx & Hs & Hl & ->)]%visit_Ok; [done|].
  intros ?. rewrite !lookup_insert_is_Some. destruct (decide (la = y)); [by left|].
  right. split; [done|]. destruct (decide (x = y)); [by left|by right].
Qed.

(** The body only writes to the visited route object and to the list that
    [self.routes] refers to. *)
Lemma visit_frame self prefix tags' x h u h' y :
  visit self prefix tags' x h = Ok (u, h') →
  route_at h y = None → routes_of h self ≠ Some y ∨ list_at h y = None →
  h' !! y = h !! y.
Proof.
  intros [(_ & _ & ->)|(rt & la & al & Hx & Hs & Hl & ->)]%visit_Ok; [done|].
  intros Hy Hne.
  rewrite lookup_insert_ne.
  - rewrite lookup_insert_ne; [done|].
    intros ->. unfold route_at in Hy. by rewrite Hx in Hy.
  - intros ->. unfold list_at in Hne. rewrite Hl in Hne.
    by destruct Hne.
Qed.

Lemma concrete_routes_visit self prefix tags' x h u h' l :
  visit self prefix tags' x h = Ok (u, h') →
  concrete_routes h' l = concrete_routes h l.
Proof.
  intros Hv. unfold concrete_routes. apply list_filter_iff.
  intros y. by eapply visit_route_at.
Qed.

Lemma visit_all_nil self prefix tags' h u h' :
  visit_all self prefix tags' [] h = Ok (u, h') → h' = h.
Proof. by intros [= _ <-]. Qed.

Lemma visit_all_cons self prefix tags' x l h res :
  visit_all self prefix tags' (x :: l) h = Ok res →
  ∃ u1 h1, visit self prefix tags' x h = Ok (u1, h1) ∧
           visit_all self prefix tags' l h1 = Ok res.
Proof. destruct res. simpl. by intros ?%bind_Ok. Qed.

(** A reflexive and transitive relation between heaps that every returning
    run of the body respects is respected by the unrolled loop. *)
Lemma visit_all_preserves (R : heap → heap → Prop) self prefix tags' l h u h' :
  (∀ h0, R h0 h0) → (∀ h0 h1 h2, R h0 h1 → R h1 h2 → R h0 h2) →
  (∀ x h0 u0 h1, visit self prefix tags' x h0 = Ok (u0, h1) → R h0 h1) →
  visit_all self prefix tags' l h = Ok (u, h') → R h h'.
Proof.
  intros Hrefl Htrans Hstep. revert h.
  induction l as [|x l IH]; intros h Hall.
  - apply visit_all_nil in Hall as ->. apply Hrefl.
  - apply visit_all_cons in Hall as (u1 & h1 & Hv & Hall).
    eapply Htrans; [by eapply Hstep|by apply IH].
Qed.

(** Each route object is rewritten once for each of its occurrences in the
    list. *)
Lemma visit_all_route self prefix tags' l h u h' r rt :
  visit_all self prefix tags' l h = Ok (u, h') →
  h !! r = Some (OAPIRoute rt) →
  h' !! r = Some (OAPIRoute (Nat.iter (times r l) (import_route prefix tags') rt)).
Proof.
  revert h rt. induction l as [|x l IH]; intros h rt Hall Hr.
  { by apply visit_all_nil in Hall as ->. }
  apply visit_all_cons in Hall as (u1 & h1 & Hv & Hall).
  pose proof Hv as [(_ & Hx & ->)|(rt0 & la & al & Hx & Hs & Hl & ->)]%visit_Ok.
  - rewrite times_cons_ne; [by eapply IH|].
    intros ->. unfold route_at in Hx. by rewrite Hr in Hx.
  - assert (r ≠ la) by congruence.
    destruct (decide (x = r)) as [->|Hne].
    + simplify_eq. rewrite times_cons_eq, Nat.iter_succ_r.
      eapply IH; [done|]. rewrite lookup_insert_ne by done.
      by rewrite lookup_insert_eq.
    + rewrite times_cons_ne by done. eapply IH; [done|].
      by rewrite !lookup_insert_ne by done.
Qed.

(** The references of the visited route objects are appended to the table
    of [self], in the order of the list. *)
Lemma visit_all_table self prefix tags' l h u h' la al :
  visit_all self prefix tags' l h = Ok (u, h') →
  routes_of h self = Some la → h !! la = Some (OList al) →
  h' !! la = Some (OList (al ++ concrete_routes h l)).
Proof.
  revert h al. induction l as [|x l IH]; intros h al Hall Hs Hl.
  { apply visit_all_nil in Hall as ->. by rewrite app_nil_r. }
  apply visit_all_cons in Hall as (u1 & h1 & Hv & Hall).
  pose proof Hv as [(_ & Hx & ->)|(rt0 & la' & al' & Hx & Hs' & Hl' & ->)]%visit_Ok.
  - unfold concrete_routes. rewrite filter_cons_False; [by eapply IH|].
    rewrite Hx. by intros [? ?].
  - simplify_eq.
    assert (concrete_routes h (x :: l) = x :: concrete_routes h l) as ->.
    { unfold concrete_routes. rewrite filter_cons_True; [done|].
      unfold route_at. rewrite Hx. eauto. }
    rewrite <-(concrete_routes_visit _ _ _ _ _ _ _ l Hv).
    rewrite cons_middle, (assoc_L (++)). eapply IH; [done| |by rewrite lookup_insert_eq].
    by rewrite (visit_routes_of _ _ _ _ _ _ _ self Hv).
Qed.

(** Nothing else is written. *)
Lemma visit_all_frame self prefix tags' l h u h' y :
  visit_all self prefix tags' l h = Ok (u, h') →
  route_at h y = None → routes_of h self ≠ Some y ∨ list_at h y = None →
  h' !! y = h !! y.
Proof.
  revert h. induction l as [|x l IH]; intros h Hall Hy Hne.
  { by apply visit_all_nil in Hall as ->. }
  apply visit_all_cons in Hall as (u1 & h1 & Hv & Hall).
  pose proof (visit_frame _ _ _ _ _ _ _ y Hv Hy Hne) as Hsame.
  rewrite <-Hsame.
  eapply IH; [done| |].
  - unfold route_at in *. by rewrite Hsame.
  - rewrite (visit_routes_of _ _ _ _ _ _ _ self Hv).
    unfold list_at in *. by rewrite Hsame.
Qed.

Lemma visit_all_routes_of self prefix tags' l h u h' y :
  visit_all self prefix tags' l h = Ok (u, h') →
  routes_of h' y = routes_of h y.
Proof.
  apply (visit_all_preserves (λ h0 h1, routes_of h1 y = routes_of h0 y));
    [done|congruence|].
  intros x h0 u0 h1. apply visit_routes_of.
Qed.

Lemma visit_all_allocated self prefix tags' l h u h' y :
  visit_all self prefix tags' l h = Ok (u, h') →
  is_Some (h !! y) → is_Some (h' !! y).
Proof.
  apply (visit_all_preserves (λ h0 h1, is_Some (h0 !! y) → is_Some (h1 !! y)));
    [done|by auto|].
  intros x h0 u0 h1. apply visit_allocated.
Qed.

Lemma concrete_routes_visit_all self prefix tags' l h u h' l0 :
  visit_all self prefix tags' l h = Ok (u, h') →
  concrete_routes h' l0 = concrete_routes h l0.
Proof.
  apply (visit_all_preserves
           (λ h0 h1, concrete_routes h1 l0 = concrete_routes h0 l0));
    [done|congruence|].
  intros x h0 u0 h1. apply concrete_routes_visit.
Qed.

Lemma times_0 x l : x ∉ l → times x l = 0.
Proof.
  induction l as [|y l IH]; [done|].
  intros [? ?]%not_elem_of_cons. rewrite times_cons_ne by done. by apply IH.
Qed.

(** The heap after the unrolled loop differs from the heap before it only
    at the visited route objects and at the list of [self]. *)
Lemma visit_all_unchanged self prefix tags' l h u h' y :
  visit_all self prefix tags' l h = Ok (u, h') →
  y ∉ concrete_routes h l →
  routes_of h self ≠ Some y ∨ list_at h y = None → h' !! y = h !! y.
Proof.
  intros Hall Hy Hne.
  destruct (route_at h y) as [rt|] eqn:Hr; [|by eapply visit_all_frame].
  unfold route_at in Hr. destruct (h !! y) as [[]|] eqn:E; simplify_eq.
  rewrite (visit_all_route _ _ _ _ _ _ _ _ _ Hall E).
  rewrite times_0; [done|].
  intros Hin. apply Hy. apply list_elem_of_filter. split; [|done].
  unfold route_at. rewrite E. eauto.
Qed.

(** Entries that hold no route object leave the heap as it is. *)
Lemma visit_all_skip self prefix tags' l h :
  (∀ x, x ∈ l → is_Some (h !! x) ∧ route_at h x = None) →
  visit_all self prefix tags' l h = Ok (tt, h).
Proof.
  induction l as [|x l IH]; intros Hl; simpl; [done|].
  destruct (Hl x) as [[o Ho] Hx]; [left|].
  unfold mbind, M_bind. rewrite (visit_skip _ _ _ _ _ _ Ho Hx).
  apply IH. intros y Hy. apply Hl. by right.
Qed.

(** On allocated entries, and with a route table to append to, the unrolled
    loop returns. *)
Lemma visit_all_returns self prefix tags' l h la al :
  routes_of h self = Some la → h !! la = Some (OList al) →
  (∀ x, x ∈ l → is_Some (h !! x)) →
  ∃ h', visit_all self prefix tags' l h = Ok (tt, h').
Proof.
  revert h al. induction l as [|x l IH]; intros h al Hs Hl Hal; simpl.
  { by eexists. }
  assert (∃ h1, visit self prefix tags' x h = Ok (tt, h1)) as [h1 Hv].
  { destruct (Hal x) as [o Ho]; [left|].
    destruct (route_at h x) as [rt|] eqn:Hx.
    - unfold route_at in Hx. rewrite Ho in Hx. destruct o; simplify_eq.
      eexists. by eapply visit_route.
    - eexists. by eapply visit_skip. }
  unfold mbind, M_bind. rewrite Hv.
  assert (∃ al1, h1 !! la = Some (OList al1)) as [al1 Hl1].
  { pose proof Hv as [(_ & _ & ->)|(rt0 & la' & al' & Hx & Hs' & Hl' & ->)]%visit_Ok;
      [eauto|].
    simplify_eq. rewrite lookup_insert_eq. eauto. }
  eapply IH; [|done|].
  - by rewrite (visit_routes_of _ _ _ _ _ _ _ self Hv).
  - intros y Hy. eapply visit_allocated; [done|]. apply Hal. by right.
Qed.

End VisitAllProperties.

(** ** The loop over the list object *)

Section LoopProperties.

Context `{SetIteration}.

Implicit Types (h : heap) (x r self lst : loc) (l : list loc).

Lemma for_each_Ok_list fuel body lst i h res :
  for_each fuel body lst i h = Ok res → ∃ l, h !! lst = Some (OList l).
Proof.
  destruct fuel as [|fuel]; simpl; [done|].
  unfold mbind, M_bind, load.
  destruct (h !! lst) as [[]|]; by eauto.
Qed.

(** When the loop iterates over the very list that the body appends to, a
    route object ahead of the iterator keeps the loop from ever returning:
    its visit appends one more reference to a route object to the list. *)
Lemma for_each_aliased_no_Ok self prefix tags' lst fuel i h l j x res :
  h !! lst = Some (OList l) → routes_of h self = Some lst →
  i ≤ j → l !! j = Some x → is_Some (route_at h x) →
  for_each fuel (visit self prefix tags') lst i h ≠ Ok res.
Proof.
  revert i h l j x. induction fuel as [|fuel IH]; intros i h l j x Hl Hs Hij Hj Hx;
    simpl; [done|].
  unfold mbind, M_bind, load. rewrite Hl. simpl.
  destruct (l !! i) as [y|] eqn:Hi.
  2:{ apply lookup_ge_None in Hi. apply lookup_lt_Some in Hj. lia. }
  destruct (visit self prefix tags' y h) as [[u h1]| |] eqn:Hv; [|done..].
  pose proof Hv as [(_ & Hy & ->)|(rt & la & al & Hy & Hs' & Hl' & Hh1)]%visit_Ok.
  - apply (IH _ _ l j x); try done.
    destruct (decide (i = j)) as [->|]; [|lia].
    simplify_eq. rewrite Hy in Hx. by destruct Hx.
  - simplify_eq. apply (IH _ _ (l ++ [y]) (length l) y).
    + by rewrite lookup_insert_eq.
    + by rewrite (visit_routes_of _ _ _ _ _ _ _ self Hv).
    + apply lookup_lt_Some in Hi. lia.
    + by rewrite list_lookup_middle.
    + apply (visit_route_at _ _ _ _ _ _ _ y Hv). unfold route_at.
      rewrite Hy. eauto.
Qed.

(** Every returning run of the loop is a run of the body over the entries
    that the list had when the loop was entered. *)
Lemma for_each_Ok self prefix tags' lst fuel i h l res :
  for_each fuel (visit self prefix tags') lst i h = Ok res →
  h !! lst = Some (OList l) →
  visit_all self prefix tags' (drop i l) h = Ok res.
Proof.
  revert i h. induction fuel as [|fuel IH]; intros i h Hrun Hl; simpl in *;
    [done|].
  unfold mbind, M_bind, load in Hrun. rewrite Hl in Hrun. simpl in Hrun.
  destruct (l !! i) as [y|] eqn:Hi.
  2:{ apply lookup_ge_None in Hi. by rewrite drop_ge. }
  rewrite (drop_S _ _ _ Hi). simpl. unfold mbind, M_bind.
  destruct (visit self prefix tags' y h) as [[u h1]| |] eqn:Hv; [|done..].
  apply IH; [done|].
  destruct (decide (routes_of h self = Some lst)) as [Hs|Hs].
  - pose proof Hv as [(_ & _ & ->)|(rt & la & al & Hy & Hs' & Hl' & Hh1)]%visit_Ok;
      [done|].
    exfalso. simplify_eq.
    eapply (for_each_aliased_no_Ok _ _ _ _ _ _ _ (l ++ [y]) (length l) y);
      [| | | | |exact Hrun].
    + by rewrite lookup_insert_eq.
    + by rewrite (visit_routes_of _ _ _ _ _ _ _ self Hv).
    + apply lookup_lt_Some in Hi. lia.
    + by rewrite list_lookup_middle.
    + apply (visit_route_at _ _ _ _ _ _ _ y Hv). unfold route_at.
      rewrite Hy. eauto.
  - rewrite <-Hl. eapply visit_frame; [done| |by left].
    unfold route_at. by rewrite Hl.
Qed.

(** With two different list objects and fuel for the length of the list,
    the loop returns what the unrolled loop returns. *)
Lemma for_each_returns self prefix tags' lst fuel i h l res :
  h !! lst = Some (OList l) → routes_of h self ≠ Some lst →
  length l - i < fuel →
  visit_all self prefix tags' (drop i l) h = Ok res →
  for_each fuel (visit self prefix tags') lst i h = Ok res.
Proof.
  revert i h. induction fuel as [|fuel IH]; intros i h Hl Hs Hlen Hall; [lia|].
  simpl. unfold mbind, M_bind, load. rewrite Hl. simpl.
  destruct (l !! i) as [y|] eqn:Hi.
  2:{ apply lookup_ge_None in Hi. by rewrite drop_ge in Hall. }
  rewrite (drop_S _ _ _ Hi) in Hall. simpl in Hall.
  unfold mbind, M_bind in Hall.
  destruct (visit self prefix tags' y h) as [[u h1]| |] eqn:Hv; [|done..].
  apply lookup_lt_Some in Hi.
  apply IH; [| |lia|done].
  - rewrite <-Hl. eapply visit_frame; [done| |by left].
    unfold route_at. by rewrite Hl.
  - by rewrite (visit_routes_of _ _ _ _ _ _ _ self Hv).
Qed.

Lemma table_Some h x l :
  table h x = Some l ↔
  ∃ lst, routes_of h x = Some lst ∧ h !! lst = Some (OList l).
Proof.
  unfold table, list_at. split.
  - destruct (routes_of h x) as [lst|]; simpl; [|done].
    destruct (h !! lst) as [[]|] eqn:E; intros; simplify_eq; eauto.
  - intros (lst & -> & Hl). simpl. by rewrite Hl.
Qed.

(** Every returning call of [include_router] is a run of the loop body over
    the route table that the router had at the call, and leaves that table
    with the same entries. *)
Lemma include_router_Ok fuel self router prefix tags' h res :
  include_router fuel self router prefix tags' h = Ok res →
  ∃ l, table h router = Some l ∧ table res.2 router = Some l ∧
       visit_all self prefix tags' l h = Ok res.
Proof.
  unfold include_router. destruct res as [u h'].
  intros (lst & h1 & [Hr ->]%getattr_routes_Ok & Hrun)%bind_Ok.
  destruct (for_each_Ok_list _ _ _ _ _ _ Hrun) as [l Hl].
  pose proof (for_each_Ok _ _ _ _ _ _ _ _ _ Hrun Hl) as Hall.
  rewrite drop_0 in Hall.
  exists l. split_and!; [apply table_Some; eauto| |done].
  apply table_Some. exists lst. simpl.
  split; [by rewrite (visit_all_routes_of _ _ _ _ _ _ _ router Hall)|].
  destruct (decide (routes_of h self = Some lst)) as [Hs|Hs].
  - assert (concrete_routes h l = []) as Hnil.
    { destruct (concrete_routes h l) as [|x l'] eqn:E; [done|].
      assert (x ∈ concrete_routes h l) as Hx by (rewrite E; left).
      apply list_elem_of_filter in Hx as [Hx [j Hj]%list_elem_of_lookup].
      exfalso.
      eapply (for_each_aliased_no_Ok _ _ _ _ _ 0 _ l j x);
        [done|done|lia|done|done|exact Hrun]. }
    rewrite (visit_all_table _ _ _ _ _ _ _ _ _ Hall Hs Hl), Hnil.
    by rewrite app_nil_r.
  - rewrite <-Hl. eapply visit_all_frame; [done| |by left].
    unfold route_at. by rewrite Hl.
Qed.

(** Under [include_pre] the call returns. *)
Lemma include_router_returns fuel self router prefix tags' h :
  include_pre h self router fuel →
  ∃ h', include_router fuel self router prefix tags' h = Ok (tt, h').
Proof.
  intros (lr & rl & la & al & Hr & Hrl & Hs & Hal & Hne & Halloc & Hfuel).
  destruct (visit_all_returns self prefix tags' rl h la al Hs Hal Halloc)
    as [h' Hall].
  exists h'. unfold include_router. apply bind_Ok.
  exists lr, h. split; [by apply getattr_routes_Ok|].
  eapply for_each_returns; [done|congruence|lia|done].
Qed.

End LoopProperties.

(** ** Repeated rewriting of one route object *)

Section ImportRouteProperties.

Context `{SetIteration}.

Lemma iter_import_path k prefix tags' rt :
  path (Nat.iter k (import_route prefix tags') rt) = prefixed k prefix (path rt).
Proof. induction k as [|k IH]; simpl; [done|]. by rewrite IH. Qed.

Lemma iter_import_fixed k prefix tags' rt :
  let rt' := Nat.iter k (import_route prefix tags') rt in
  endpoint rt' = endpoint rt ∧ methods rt' = methods rt ∧
  name rt' = name rt ∧ include_in_schema rt' = include_in_schema rt.
Proof. induction k as [|k IH]; simpl in *; [done|]. apply IH. Qed.

Lemma import_tags_elem prefix tags' rt x :
  x ∈ tags (import_route prefix tags' rt) ↔ x ∈ tags rt ∨ x ∈ default [] tags'.
Proof.
  simpl. destruct tags' as [[|t ts]|]; simpl.
  - rewrite elem_of_nil. tauto.
  - by rewrite list_of_set_elem, elem_of_app.
  - rewrite elem_of_nil. tauto.
Qed.

Lemma iter_import_tags_elem k prefix tags' rt x :
  0 < k →
  x ∈ tags (Nat.iter k (import_route prefix tags') rt) ↔
  x ∈ tags rt ∨ x ∈ default [] tags'.
Proof.
  induction k as [|k IH]; [lia|]. intros _. simpl Nat.iter.
  rewrite import_tags_elem. destruct k as [|k]; [done|].
  rewrite IH by lia. tauto.
Qed.

Lemma iter_import_tags_NoDup k prefix tags' rt :
  0 < k → truthy tags' = true →
  NoDup (tags (Nat.iter k (import_route prefix tags') rt)).
Proof.
  destruct k as [|k]; [lia|]. intros _ Ht. simpl. rewrite Ht.
  apply list_of_set_NoDup.
Qed.

Lemma iter_import_tags_falsy k prefix tags' rt :
  truthy tags' = false →
  tags (Nat.iter k (import_route prefix tags') rt) = tags rt.
Proof.
  intros Ht. induction k as [|k IH]; simpl; [done|]. by rewrite Ht.
Qed.

End ImportRouteProperties.

(** ** Router inclusion *)

Section IncludeRouterProperties.

Context `{SetIteration}.

Implicit Types (h : heap) (x r self router lst : loc) (l : list loc).

(** What a returning call of [include_router] does to the heap. *)
Lemma include_router_effect fuel self router prefix tags' h u h' :
  include_router fuel self router prefix tags' h = Ok (u, h') →
  ∃ rl, table h router = Some rl ∧ table h' router = Some rl ∧
    (∀ al, table h self = Some al →
           table h' self = Some (al ++ concrete_routes h rl)) ∧
    (∀ r rt, route_at h r = Some rt →
             route_at h' r =
               Some (Nat.iter (times r rl) (import_route prefix tags') rt)) ∧
    (∀ y, y ∉ concrete_routes h rl →
          routes_of h self ≠ Some y ∨ list_at h y = None →
          h' !! y = h !! y) ∧
    (∀ y, routes_of h' y = routes_of h y) ∧
    (∀ y, is_Some (h !! y) → is_Some (h' !! y)) ∧
    (∀ l, concrete_routes h' l = concrete_routes h l).
Proof.
  intros (rl & Hrl & Hrl' & Hall)%include_router_Ok. simpl in Hrl'.
  exists rl. split_and!; try done.
  - intros al (la & Hs & Hal)%table_Some. apply table_Some. exists la.
    split; [by rewrite (visit_all_routes_of _ _ _ _ _ _ _ self Hall)|].
    by eapply visit_all_table.
  - intros r rt Hr. unfold route_at in *.
    destruct (h !! r) as [[]|] eqn:E; simplify_eq.
    by rewrite (visit_all_route _ _ _ _ _ _ _ _ _ Hall E).
  - intros y. by eapply visit_all_unchanged.
  - intros y. by eapply visit_all_routes_of.
  - intros y. by eapply visit_all_allocated.
  - intros l. by eapply concrete_routes_visit_all.
Qed.

Lemma concrete_routes_all h l :
  Forall (λ x, is_Some (route_at h x)) l → concrete_routes h l = l.
Proof.
  induction 1 as [|x l Hx _ IH]; [done|].
  unfold concrete_routes in *. by rewrite filter_cons_True, IH.
Qed.

(** C1 (amended).  When the router's route table and the application's route
    table are two different list objects, [include_router] returns, given
    fuel for the length of the router's table, and the application's table
    is then its former content followed by the entries of the router's
    table that are route objects, in the order of the router's table.  The
    number of appended routes is the number N of route objects among the
    entries; when every entry is a route object these are all the entries
    of the router's table. *)
Theorem include_router_appends fuel self router prefix tags' h rl al :
  include_pre h self router fuel →
  table h router = Some rl → table h self = Some al →
  ∃ h', include_router fuel self router prefix tags' h = Ok (tt, h') ∧
        table h' self = Some (al ++ concrete_routes h rl) ∧
        (Forall (λ x, is_Some (route_at h x)) rl →
         table h' self = Some (al ++ rl)).
Proof.
  intros Hpre Hrl Hal.
  destruct (include_router_returns fuel self router prefix tags' h Hpre)
    as [h' Hrun].
  exists h'. split; [done|].
  destruct (include_router_effect _ _ _ _ _ _ _ _ Hrun)
    as (rl' & Hrl' & _ & Htab & _).
  simplify_eq. split; [by apply Htab|].
  intros Hall. rewrite <-(concrete_routes_all h rl Hall). by apply Htab.
Qed.

(** C2 (amended).  A call of [include_router] with prefix P that returns
    leaves every route object of the router's table with the path P
    concatenated k times in front of the path it had, where k is the number
    of occurrences of the object in the router's table; for a route object
    that occurs once, the new path is P followed by the original path, by
    literal concatenation.  The call returns under [include_pre]. *)
Theorem include_router_path fuel self router prefix tags' h :
  (include_pre h self router fuel →
   ∃ h', include_router fuel self router prefix tags' h = Ok (tt, h')) ∧
  ∀ h', include_router fuel self router prefix tags' h = Ok (tt, h') →
    ∀ rl r rt, table h router = Some rl → r ∈ rl → route_at h r = Some rt →
      ∃ rt', route_at h' r = Some rt' ∧
             path rt' = prefixed (times r rl) prefix (path rt) ∧
             (times r rl = 1 → path rt' = prefix +:+ path rt).
Proof.
  split; [apply include_router_returns|].
  intros h' Hrun rl r rt Hrl Hin Hr.
  destruct (include_router_effect _ _ _ _ _ _ _ _ Hrun)
    as (rl' & Hrl' & _ & _ & Hroute & _).
  simplify_eq. eexists. split; [by apply Hroute|].
  rewrite iter_import_path. split; [done|]. by intros ->.
Qed.

(** C3.  A call of [include_router] with tags T that returns leaves every
    route object of the router's table with a tag list whose elements are
    those of its original tags and those of T.  When T is not empty the new
    list has no repetition; when T is empty or None the tag list is the
    original one.  The call returns under [include_pre]. *)
Theorem include_router_tags fuel self router prefix tags' h :
  (include_pre h self router fuel →
   ∃ h', include_router fuel self router prefix tags' h = Ok (tt, h')) ∧
  ∀ h', include_router fuel self router prefix tags' h = Ok (tt, h') →
    ∀ rl r rt, table h router = Some rl → r ∈ rl → route_at h r = Some rt →
      ∃ rt', route_at h' r = Some rt' ∧
             (∀ t, t ∈ tags rt' ↔ t ∈ tags rt ∨ t ∈ default [] tags') ∧
             (truthy tags' = true → NoDup (tags rt')) ∧
             (truthy tags' = false → tags rt' = tags rt).
Proof.
  split; [apply include_router_returns|].
  intros h' Hrun rl r rt Hrl Hin Hr.
  destruct (include_router_effect _ _ _ _ _ _ _ _ Hrun)
    as (rl' & Hrl' & _ & _ & Hroute & _).
  simplify_eq. eexists. split; [by apply Hroute|].
  pose proof (times_pos r rl Hin).
  split_and!.
  - intros t. by apply iter_import_tags_elem.
  - by apply iter_import_tags_NoDup.
  - by apply iter_import_tags_falsy.
Qed.

(** C5.  A call of [include_router] that returns appends to the
    application's table the entries of the router's table that are
    [APIRoute] objects and no other entry; an entry of any other class is
    passed over: it is not among the appended references and the object is
    left as it was (the list object that serves as the application's own
    table, should it be an entry, is the one object that grows).  The call
    returns under [include_pre]. *)
Theorem include_router_filter fuel self router prefix tags' h :
  (include_pre h self router fuel →
   ∃ h', include_router fuel self router prefix tags' h = Ok (tt, h')) ∧
  ∀ h', include_router fuel self router prefix tags' h = Ok (tt, h') →
    ∀ rl al, table h router = Some rl → table h self = Some al →
      ∃ new, table h' self = Some (al ++ new) ∧
        new = concrete_routes h rl ∧
        (∀ x, x ∈ new ↔ x ∈ rl ∧ is_Some (route_at h x)) ∧
        (∀ x, x ∈ rl → route_at h x = None →
           (x ∉ new) ∧ (routes_of h self ≠ Some x → h' !! x = h !! x)).
Proof.
  split; [apply include_router_returns|].
  intros h' Hrun rl al Hrl Hal.
  destruct (include_router_effect _ _ _ _ _ _ _ _ Hrun)
    as (rl' & Hrl' & _ & Htab & _ & Hframe & _).
  simplify_eq. exists (concrete_routes h rl). split_and!; [by apply Htab|done| |].
  - intros x. unfold concrete_routes. rewrite list_elem_of_filter. tauto.
  - intros x Hx Hnone.
    assert (x ∉ concrete_routes h rl) as Hnot.
    { unfold concrete_routes. rewrite list_elem_of_filter, Hnone.
      intros [[? ?] _]. done. }
    split; [done|]. intros Hne. apply Hframe; [done|by left].
Qed.

(** C6.  With a router whose route table is empty, [include_router] raises
    nothing and returns with the heap as it was: the application's route
    table, and every other object, is unchanged. *)
Theorem include_router_empty fuel self router prefix tags' h :
  table h router = Some [] →
  include_router (S fuel) self router prefix tags' h = Ok (tt, h).
Proof.
  intros (lst & Hr & Hl)%table_Some.
  unfold include_router. apply bind_Ok. exists lst, h.
  split; [by apply getattr_routes_Ok|].
  simpl. unfold mbind, M_bind, load. by rewrite Hl.
Qed.

(** C10 (amended).  A call of [include_router] that returns leaves the
    application object as it was (title, description, version,
    documentation URLs, debug flag, extra options, and the reference to its
    route table), keeps every entry that the application's table had at its
    position and appends the new references after them, and leaves
    unchanged every object of the heap that is neither the application's
    list nor a route object of the router's table; in particular a route
    already present in the application's table keeps its value unless the
    same object is an entry of the router's table.  The call returns under
    [include_pre]. *)
Theorem include_router_frame fuel self router prefix tags' h :
  (include_pre h self router fuel →
   ∃ h', include_router fuel self router prefix tags' h = Ok (tt, h')) ∧
  ∀ h', include_router fuel self router prefix tags' h = Ok (tt, h') →
    (∀ a, h !! self = Some (OFastAPI a) → h' !! self = Some (OFastAPI a)) ∧
    ∀ rl al, table h router = Some rl → table h self = Some al →
      ∃ al', table h' self = Some al' ∧
        (∀ i x, al !! i = Some x → al' !! i = Some x) ∧
        (∃ new, al' = al ++ new) ∧
        (∀ x rt, x ∈ al → route_at h x = Some rt → x ∉ rl →
           route_at h' x = Some rt) ∧
        (∀ y, y ∉ concrete_routes h rl → routes_of h self ≠ Some y →
           h' !! y = h !! y).
Proof.
  split; [apply include_router_returns|].
  intros h' Hrun.
  destruct (include_router_effect _ _ _ _ _ _ _ _ Hrun)
    as (rl' & Hrl' & _ & Htab & Hroute & Hframe & _).
  split.
  - intros a Ha. rewrite <-Ha. apply Hframe.
    + unfold concrete_routes. rewrite list_elem_of_filter.
      unfold route_at. rewrite Ha. by intros [[? ?] _].
    + right. unfold list_at. by rewrite Ha.
  - intros rl al Hrl Hal. assert (rl' = rl) as -> by congruence.
    exists (al ++ concrete_routes h rl). split_and!.
    + by apply Htab.
    + intros i x Hi. by apply lookup_app_l_Some.
    + by eexists.
    + intros x rt _ Hx Hnot. rewrite (Hroute _ _ Hx), times_0; done.
    + intros y Hy Hne. apply Hframe; [done|by left].
Qed.

(** The conditions of [include_pre] on a second application survive a
    call of [include_router]. *)
Lemma include_pre_preserved fuel self router prefix tags' h u h' self2 fuel2 :
  include_router fuel self router prefix tags' h = Ok (u, h') →
  include_pre h self2 router fuel2 → include_pre h' self2 router fuel2.
Proof.
  intros Hrun (lr & rl & la & al & Hr & Hrl & Hs & Hal & Hne & Halloc & Hfuel).
  destruct (include_router_effect _ _ _ _ _ _ _ _ Hrun)
    as (rl' & Hrl1 & Hrl2 & Htab & _ & Hframe & Hroutes & Hall & _).
  assert (table h router = Some rl) as Ht by (apply table_Some; eauto).
  assert (rl' = rl) as -> by congruence.
  apply table_Some in Hrl2 as (lr' & Hr' & Hrl').
  rewrite Hroutes in Hr'. assert (lr' = lr) as -> by congruence.
  assert (∃ al', h' !! la = Some (OList al')) as [al' Hal'].
  { destruct (decide (routes_of h self = Some la)) as [Hsl|Hsl].
    - assert (table h self = Some al) as Hta by (apply table_Some; eauto).
      apply Htab, table_Some in Hta as (la' & Hs' & Hal').
      rewrite Hroutes in Hs'. assert (la' = la) as -> by congruence. eauto.
    - exists al. rewrite <-Hal. apply Hframe; [|by left].
      unfold concrete_routes. rewrite list_elem_of_filter.
      unfold route_at. rewrite Hal. by intros [[? ?] _]. }
  exists lr, rl, la, al'. split_and!; try done.
  - by rewrite Hroutes.
  - by rewrite Hroutes.
  - intros x Hx. by apply Hall, Halloc.
Qed.

(** C4.  [include_router] rewrites the route objects of the router in place
    and appends references to those same objects: after a returning call the
    router's table has the same entries, the application's table ends with
    the references of the router's route objects, and the object at each such
    reference is the original one rewritten ([import_route]) once per
    occurrence.  Hence, when the router is included into a first application
    with prefix P1 and then into a second one with prefix P2, the routes
    that the second inclusion imports carry P2 in front of the path that the
    first inclusion produced: P2 + P1 + original path for a route that
    occurs once.  Both calls return under [include_pre]. *)
Theorem include_router_shares_routes fuel app1 app2 router prefix1 tags1
    prefix2 tags2 h :
  (include_pre h app1 router fuel → include_pre h app2 router fuel →
   ∃ h1 h2,
     include_router fuel app1 router prefix1 tags1 h = Ok (tt, h1) ∧
     include_router fuel app2 router prefix2 tags2 h1 = Ok (tt, h2)) ∧
  ∀ h1 h2,
    include_router fuel app1 router prefix1 tags1 h = Ok (tt, h1) →
    include_router fuel app2 router prefix2 tags2 h1 = Ok (tt, h2) →
    ∀ rl, table h router = Some rl →
      table h1 router = Some rl ∧ table h2 router = Some rl ∧
      (∀ al1, table h app1 = Some al1 →
         table h1 app1 = Some (al1 ++ concrete_routes h rl)) ∧
      (∀ al2, table h1 app2 = Some al2 →
         table h2 app2 = Some (al2 ++ concrete_routes h rl)) ∧
      ∀ r rt, r ∈ rl → route_at h r = Some rt →
        ∃ rt1 rt2,
          route_at h1 r = Some rt1 ∧ route_at h2 r = Some rt2 ∧
          rt1 = Nat.iter (times r rl) (import_route prefix1 tags1) rt ∧
          rt2 = Nat.iter (times r rl) (import_route prefix2 tags2) rt1 ∧
          path rt1 = prefixed (times r rl) prefix1 (path rt) ∧
          path rt2 = prefixed (times r rl) prefix2 (path rt1) ∧
          (times r rl = 1 → path rt2 = prefix2 +:+ prefix1 +:+ path rt).
Proof.
  split.
  - intros Hpre1 Hpre2.
    destruct (include_router_returns fuel app1 router prefix1 tags1 h Hpre1)
      as [h1 Hrun1].
    pose proof (include_pre_preserved _ _ _ _ _ _ _ _ _ _ Hrun1 Hpre2) as Hpre2'.
    destruct (include_router_returns fuel app2 router prefix2 tags2 h1 Hpre2')
      as [h2 Hrun2].
    eauto.
  - intros h1 h2 Hrun1 Hrun2 rl Hrl.
    destruct (include_router_effect _ _ _ _ _ _ _ _ Hrun1)
      as (rl1 & Hrl1 & Hrl1' & Htab1 & Hroute1 & _ & _ & _ & Hconc1).
    destruct (include_router_effect _ _ _ _ _ _ _ _ Hrun2)
      as (rl2 & Hrl2 & Hrl2' & Htab2 & Hroute2 & _).
    simplify_eq. split_and!; try done.
    + intros al2 Hal2. rewrite <-Hconc1. by apply Htab2.
    + intros r rt Hin Hr. do 2 eexists.
      split; [by apply Hroute1|]. split; [by apply Hroute2, Hroute1|].
      split_and!; try done.
      * by rewrite iter_import_path.
      * by rewrite iter_import_path.
      * intros ->. by rewrite !iter_import_path.
Qed.

End IncludeRouterProperties.

(** ** Route registration *)

Section AddRouteProperties.

Variable default_tags : list string.

Implicit Types (h : heap) (self : loc) (kw : add_route_kwargs).

(** [add_route] creates one route object, at a location that was free, with
    the fields computed from the arguments, and appends its reference to the
    table of [self]. *)
Lemma add_route_returns self path' endpoint' methods' name' visible h al :
  table h self = Some al →
  ∃ h' r,
    add_route default_tags self path' endpoint' methods' name' visible h
      = Ok (tt, h') ∧
    h !! r = None ∧ table h' self = Some (al ++ [r]) ∧
    route_at h' r =
      Some (APIRoute_init default_tags path' endpoint'
              (or_list methods' ["GET"]) name' visible).
Proof.
  intros (la & Hs & Hal)%table_Some.
  set (r := fresh (dom h)).
  assert (h !! r = None) as Hr by (apply not_elem_of_dom, is_fresh).
  assert (r ≠ la) by congruence.
  assert (r ≠ self).
  { intros ->. unfold routes_of in Hs. by rewrite Hr in Hs. }
  set (rt := APIRoute_init default_tags path' endpoint'
               (or_list methods' ["GET"]) name' visible).
  exists (<[la:=OList (al ++ [r])]> (<[r:=OAPIRoute rt]> h)), r.
  split_and!; try done.
  - unfold add_route. apply bind_Ok. exists r, (<[r:=OAPIRoute rt]> h).
    split; [done|]. apply bind_Ok. exists la, (<[r:=OAPIRoute rt]> h).
    split.
    + apply getattr_routes_Ok. split; [|done].
      unfold routes_of in *. by rewrite lookup_insert_ne.
    + apply list_append_Ok. exists al. by rewrite lookup_insert_ne.
  - apply table_Some. exists la. split; [|by rewrite lookup_insert_eq].
    assert (la ≠ self).
    { intros ->. unfold routes_of in Hs. by rewrite Hal in Hs. }
    unfold routes_of in *. by rewrite !lookup_insert_ne by done.
  - unfold route_at. rewrite lookup_insert_ne by done.
    by rewrite lookup_insert_eq.
Qed.

(** C7.  A call of [add_route] on an application returns and appends one
    new route; when the call passes no [methods] the route's methods are
    exactly ["GET"], and when it passes no [include_in_schema] the route's
    [include_in_schema] is true. *)
Theorem add_route_defaults self path' endpoint' kw h al :
  table h self = Some al →
  ∃ h' r rt,
    call_add_route default_tags self path' endpoint' kw h = Ok (tt, h') ∧
    h !! r = None ∧ table h' self = Some (al ++ [r]) ∧
    route_at h' r = Some rt ∧
    path rt = path' ∧ endpoint rt = endpoint' ∧
    (kw_methods kw = None → methods rt = ["GET"]) ∧
    (kw_include_in_schema kw = None → include_in_schema rt = true).
Proof.
  intros Hal. unfold call_add_route.
  destruct (add_route_returns self path' endpoint'
              (default None (kw_methods kw)) (default None (kw_name kw))
              (default true (kw_include_in_schema kw)) h al Hal)
    as (h' & r & Hrun & Hr & Htab & Hrt).
  exists h', r. eexists. split_and!; try done.
  - by intros ->.
  - by intros ->.
Qed.

(** C8.  When the call of [add_route] passes no [name], the name of the
    appended route is None, the absent value, and not a string. *)
Theorem add_route_no_name self path' endpoint' kw h al :
  table h self = Some al → kw_name kw = None →
  ∃ h' r rt,
    call_add_route default_tags self path' endpoint' kw h = Ok (tt, h') ∧
    h !! r = None ∧ table h' self = Some (al ++ [r]) ∧
    route_at h' r = Some rt ∧
    name rt = None ∧ name rt ≠ Some "".
Proof.
  intros Hal Hkw. unfold call_add_route.
  destruct (add_route_returns self path' endpoint'
              (default None (kw_methods kw)) (default None (kw_name kw))
              (default true (kw_include_in_schema kw)) h al Hal)
    as (h' & r & Hrun & Hr & Htab & Hrt).
  exists h', r. eexists. split_and!; try done; simpl; by rewrite Hkw.
Qed.

(** C9.  The route appended by [add_route] never has an empty method list:
    when [methods] is left out, None or the empty list, the stored methods
    are exactly ["GET"]; a non-empty list is stored as it is. *)
Theorem add_route_methods_nonempty self path' endpoint' kw h al :
  table h self = Some al →
  ∃ h' r rt,
    call_add_route default_tags self path' endpoint' kw h = Ok (tt, h') ∧
    h !! r = None ∧ table h' self = Some (al ++ [r]) ∧
    route_at h' r = Some rt ∧
    methods rt ≠ [] ∧
    (kw_methods kw = None ∨ kw_methods kw = Some None ∨
     kw_methods kw = Some (Some []) → methods rt = ["GET"]) ∧
    (∀ m ms, kw_methods kw = Some (Some (m :: ms)) → methods rt = m :: ms).
Proof.
  intros Hal. unfold call_add_route.
  destruct (add_route_returns self path' endpoint'
              (default None (kw_methods kw)) (default None (kw_name kw))
              (default true (kw_include_in_schema kw)) h al Hal)
    as (h' & r & Hrun & Hr & Htab & Hrt).
  exists h', r. eexists. split_and!; try done; simpl.
  - by destruct (kw_methods kw) as [[[|m ms]|]|].
  - by intros [->| [->| ->]].
  - by intros m ms ->.
Qed.

End AddRouteProperties.

(** ** The loop on a shared list object *)

Section SharedTable.

Context `{SetIteration}.

(** When the application's table is the list object that the loop iterates
    over, all entries are allocated and a route object lies ahead of the
    iterator, the loop runs out of any amount of fuel: it never returns and
    never raises. *)
Lemma for_each_aliased_diverges self prefix tags' lst fuel i h l j x :
  h !! lst = Some (OList l) → routes_of h self = Some lst →
  (∀ y, y ∈ l → is_Some (h !! y)) →
  i ≤ j → l !! j = Some x → is_Some (route_at h x) →
  for_each fuel (visit self prefix tags') lst i h = OutOfFuel.
Proof.
  revert i h l j x.
  induction fuel as [|fuel IH]; intros i h l j x Hl Hs Hal Hij Hj Hx;
    simpl; [done|].
  unfold mbind, M_bind, load. rewrite Hl. simpl.
  destruct (l !! i) as [y|] eqn:Hi.
  2:{ apply lookup_ge_None in Hi. apply lookup_lt_Some in Hj. lia. }
  assert (y ∈ l) as Hyl by (apply list_elem_of_lookup; eauto).
  destruct (Hal y Hyl) as [o Ho].
  destruct (route_at h y) as [rt|] eqn:Hy.
  - unfold route_at in Hy. rewrite Ho in Hy. destruct o; simplify_eq.
    rewrite (visit_route _ _ _ _ _ _ _ _ Ho Hs Hl).
    assert (y ≠ lst) by congruence.
    apply (IH _ _ (l ++ [y]) (length l) y).
    + by rewrite lookup_insert_eq.
    + unfold routes_of in *. rewrite lookup_insert_ne.
      * rewrite lookup_insert_ne; [done|]. intros ->. by rewrite Ho in Hs.
      * intros ->. by rewrite Hl in Hs.
    + intros z Hz. rewrite !lookup_insert_is_Some.
      destruct (decide (lst = z)); [by left|]. right. split; [done|].
      destruct (decide (y = z)); [by left|]. right. split; [done|].
      apply Hal. apply elem_of_app in Hz as [?|Hz]; [done|].
      apply list_elem_of_singleton in Hz. by subst.
    + apply lookup_lt_Some in Hi. lia.
    + by rewrite list_lookup_middle.
    + unfold route_at. rewrite lookup_insert_ne by done.
      rewrite lookup_insert_eq. eauto.
  - rewrite (visit_skip _ _ _ _ _ _ Ho Hy).
    apply (IH _ _ l j x); try done.
    destruct (decide (i = j)) as [->|]; [|lia].
    simplify_eq. rewrite Hy in Hx. by destruct Hx.
Qed.

End SharedTable.

(** ** Concrete runs *)

(** C1, as stated, fails, in two ways.
    First, the constructor stores the caller's list object, so
    [FastAPI(routes=router.routes)] builds an application whose route table
    is the router's table (one route, N = 1).  Including the router into
    that application appends to the list that is being iterated: the call
    does not return for any amount of fuel, and does not stop at one
    appended route.
    Second, a router whose table has three entries, one of them a mounted
    sub-application, has two references appended, not three. *)
Lemma include_router_appends_fails :
  (∃ app h,
     FastAPI_with_routes (Some 2%positive) router_only_heap = Ok (app, h) ∧
     table h 1%positive = Some [3%positive] ∧
     concrete_routes h [3%positive] = [3%positive] ∧
     table h app = Some [3%positive] ∧
     ∀ fuel, include_router fuel app 1%positive "/api" None h = OutOfFuel) ∧
  (∃ h',
     include_router 4 1%positive 3%positive "/api" None example_heap
       = Ok (tt, h') ∧
     table example_heap 3%positive
       = Some [5%positive; 6%positive; 7%positive] ∧
     table example_heap 1%positive = Some [] ∧
     table h' 1%positive = Some [5%positive; 7%positive]).
Proof.
  split.
  2:{ eexists. split; [vm_compute; reflexivity|].
      split; [by vm_compute|]. split; by vm_compute. }
  eexists _, _. split; [vm_compute; reflexivity|].
  split; [by vm_compute|]. split; [by vm_compute|]. split; [by vm_compute|].
  intros fuel. unfold include_router. unfold mbind at 1, M_bind at 1.
  match goal with
  | |- context [getattr_routes ?r ?h] =>
      replace (getattr_routes r h) with (Ok (2%positive, h) : result (loc * heap))
        by (by vm_compute)
  end.
  eapply (for_each_aliased_diverges _ _ _ _ _ 0 _ [3%positive] 0 3%positive);
    [by vm_compute|by vm_compute| |lia|done|vm_compute; eauto].
  intros y ->%list_elem_of_singleton. vm_compute. eauto.
Qed.

(** C2, as stated, fails.  A router whose table lists the same route object
    twice has the object rewritten twice: the imported route ends with the
    prefix two times in front of its original path. *)
Lemma include_router_repeated_entry_path :
  ∃ h' new,
    include_router 3 1%positive 3%positive "/api" None repeated_entry_heap
      = Ok (tt, h') ∧
    table repeated_entry_heap 3%positive = Some [5%positive; 5%positive] ∧
    table h' 1%positive = Some new ∧ 5%positive ∈ new ∧
    path <$> route_at repeated_entry_heap 5%positive = Some "/items" ∧
    path <$> route_at h' 5%positive = Some "/api/api/items" ∧
    path <$> route_at h' 5%positive ≠
      (λ rt, "/api" +:+ path rt) <$> route_at repeated_entry_heap 5%positive.
Proof.
  eexists _, _. split; [vm_compute; reflexivity|].
  split; [by vm_compute|]. split; [vm_compute; reflexivity|].
  split; [left|]. split; [by vm_compute|]. split; [by vm_compute|].
  by vm_compute.
Qed.

(** C10, as stated, fails.  After a first inclusion of the router the
    application's table holds the router's route objects; a second inclusion
    of the same router rewrites these objects, so the route at position 0 of
    the application's table does not keep its value. *)
Lemma include_router_rewrites_present_route :
  ∃ h1 h2,
    include_router 4 1%positive 3%positive "/v1" None example_heap
      = Ok (tt, h1) ∧
    include_router 4 1%positive 3%positive "/v2" None h1 = Ok (tt, h2) ∧
    table h1 1%positive = Some [5%positive; 7%positive] ∧
    table h2 1%positive =
      Some [5%positive; 7%positive; 5%positive; 7%positive] ∧
    path <$> route_at h1 5%positive = Some "/v1/items" ∧
    path <$> route_at h2 5%positive = Some "/v2/v1/items" ∧
    h2 !! 5%positive ≠ h1 !! 5%positive.
Proof.
  eexists _, _. split; [vm_compute; reflexivity|].
  split; [vm_compute; reflexivity|].
  split; [by vm_compute|]. split; [by vm_compute|].
  split; [by vm_compute|]. split; [by vm_compute|].
  by vm_compute.
Qed.

(** The sample heap meets the conditions of [include_pre], for both of its
    applications. *)
Lemma example_heap_pre self :
  self = 1%positive ∨ self = 10%positive →
  include_pre example_heap self 3%positive 4.
Proof.
  intros Hself.
  exists 4%positive, [5%positive; 6%positive; 7%positive],
    (if decide (self = 1%positive) then 2%positive else 11%positive),
    (if decide (self = 1%positive) then [] else [12%positive]).
  split_and!.
  - by vm_compute.
  - by vm_compute.
  - by destruct Hself as [-> | ->]; vm_compute.
  - by destruct Hself as [-> | ->]; vm_compute.
  - by destruct Hself as [-> | ->]; vm_compute.
  - intros x Hx. repeat (apply elem_of_cons in Hx as [->|Hx]);
      [vm_compute; eauto..|by apply elem_of_nil in Hx].
  - simpl. lia.
Defined.

(** The router of the sample heap included into its first application:
    the two routes are appended, the mounted sub-application is not. *)
Lemma include_router_appends_witness :
  ∃ h',
    include_router 4 1%positive 3%positive "/api/v1" (Some ["v1"]) example_heap
      = Ok (tt, h') ∧
    table h' 1%positive = Some [5%positive; 7%positive].
Proof.
  destruct (include_router_appends 4 1%positive 3%positive "/api/v1"
              (Some ["v1"]) example_heap
              [5%positive; 6%positive; 7%positive] [])
    as (h' & Hrun & Htab & _).
  - apply example_heap_pre. by left.
  - by vm_compute.
  - by vm_compute.
  - exists h'. split; [done|]. rewrite Htab. by vm_compute.
Defined.

(** The first route of the sample router after inclusion under "/api/v1". *)
Lemma include_router_path_witness :
  ∃ h' rt',
    include_router 4 1%positive 3%positive "/api/v1" (Some ["v1"]) example_heap
      = Ok (tt, h') ∧
    route_at h' 5%positive = Some rt' ∧ path rt' = "/api/v1/items".
Proof.
  pose proof (include_router_path 4 1%positive 3%positive "/api/v1"
                (Some ["v1"]) example_heap) as [Hret Hpath].
  destruct Hret as [h' Hrun]; [apply example_heap_pre; by left|].
  destruct (Hpath h' Hrun [5%positive; 6%positive; 7%positive] 5%positive
              (mkAPIRoute "/items" 8%positive ["GET"] None true ["x"]))
    as (rt' & Hrt & _ & Hone).
  - by vm_compute.
  - left.
  - by vm_compute.
  - exists h', rt'. split_and!; [done..|]. by apply Hone.
Defined.

(** The tags of the first route of the sample router after inclusion with
    the tag "v1". *)
Lemma include_router_tags_witness :
  ∃ h' rt',
    include_router 4 1%positive 3%positive "/api/v1" (Some ["v1"]) example_heap
      = Ok (tt, h') ∧
    route_at h' 5%positive = Some rt' ∧
    (∀ t, t ∈ tags rt' ↔ t ∈ ["x"] ∨ t ∈ ["v1"]) ∧ NoDup (tags rt').
Proof.
  pose proof (include_router_tags 4 1%positive 3%positive "/api/v1"
                (Some ["v1"]) example_heap) as [Hret Htags].
  destruct Hret as [h' Hrun]; [apply example_heap_pre; by left|].
  destruct (Htags h' Hrun [5%positive; 6%positive; 7%positive] 5%positive
              (mkAPIRoute "/items" 8%positive ["GET"] None true ["x"]))
    as (rt' & Hrt & Helem & Hnodup & _).
  - by vm_compute.
  - left.
  - by vm_compute.
  - exists h', rt'. split_and!; [done..|]. by apply Hnodup.
Defined.

(** The sample router included into both applications of the sample heap,
    under "/v1" and then under "/v2". *)
Lemma include_router_shares_routes_witness :
  ∃ h1 h2 rt2,
    include_router 4 1%positive 3%positive "/v1" None example_heap
      = Ok (tt, h1) ∧
    include_router 4 10%positive 3%positive "/v2" None h1 = Ok (tt, h2) ∧
    table h1 1%positive = Some [5%positive; 7%positive] ∧
    table h2 10%positive = Some [12%positive; 5%positive; 7%positive] ∧
    table h2 3%positive = Some [5%positive; 6%positive; 7%positive] ∧
    route_at h2 5%positive = Some rt2 ∧ path rt2 = "/v2/v1/items".
Proof.
  pose proof (include_router_shares_routes 4 1%positive 10%positive 3%positive
                "/v1" None "/v2" None example_heap) as [Hret Hshare].
  destruct Hret as (h1 & h2 & Hrun1 & Hrun2);
    [apply example_heap_pre; by left|apply example_heap_pre; by right|].
  destruct (Hshare h1 h2 Hrun1 Hrun2 [5%positive; 6%positive; 7%positive])
    as (_ & Hrl2 & Htab1 & Htab2 & Hroute); [by vm_compute|].
  destruct (Hroute 5%positive
              (mkAPIRoute "/items" 8%positive ["GET"] None true ["x"]))
    as (rt1 & rt2 & _ & Hrt2 & _ & _ & _ & _ & Hone); [left|by vm_compute|].
  exists h1, h2, rt2. split_and!; try done.
  - rewrite (Htab1 []); by vm_compute.
  - assert (table h1 10%positive = Some [12%positive]) as Hal2.
    { clear -Hrun1. vm_compute in Hrun1. injection Hrun1 as <-.
      by vm_compute. }
    rewrite (Htab2 _ Hal2). by vm_compute.
  - by apply Hone.
Defined.

(** The mounted sub-application of the sample router is passed over. *)
Lemma include_router_filter_witness :
  ∃ h',
    include_router 4 1%positive 3%positive "/api/v1" (Some ["v1"]) example_heap
      = Ok (tt, h') ∧
    table h' 1%positive = Some [5%positive; 7%positive] ∧
    h' !! 6%positive = Some OOther.
Proof.
  pose proof (include_router_filter 4 1%positive 3%positive "/api/v1"
                (Some ["v1"]) example_heap) as [Hret Hfilter].
  destruct Hret as [h' Hrun]; [apply example_heap_pre; by left|].
  destruct (Hfilter h' Hrun [5%positive; 6%positive; 7%positive] [])
    as (new & Htab & -> & _ & Hskip); [by vm_compute..|].
  destruct (Hskip 6%positive) as [_ Hsame];
    [right; left|by vm_compute|].
  exists h'. split_and!; [done| |].
  - rewrite Htab. by vm_compute.
  - etrans; [apply Hsame|]; by vm_compute.
Defined.

(** Inclusion of the router with the empty table. *)
Lemma include_router_empty_witness :
  include_router 1 1%positive 3%positive "/api" (Some ["v1"]) empty_router_heap
    = Ok (tt, empty_router_heap).
Proof.
  apply (include_router_empty 0 1%positive 3%positive "/api" (Some ["v1"])
           empty_router_heap).
  by vm_compute.
Defined.

(** The second application of the sample heap keeps its fields and its own
    route. *)
Lemma include_router_frame_witness :
  ∃ h',
    include_router 4 10%positive 3%positive "/api/v1" (Some ["v1"]) example_heap
      = Ok (tt, h') ∧
    h' !! 10%positive = example_heap !! 10%positive ∧
    (∃ new, table h' 10%positive = Some ([12%positive] ++ new)) ∧
    route_at h' 12%positive =
      Some (mkAPIRoute "/health" 9%positive ["GET"] (Some "health") false
              ["ops"]).
Proof.
  pose proof (include_router_frame 4 10%positive 3%positive "/api/v1"
                (Some ["v1"]) example_heap) as [Hret Hframe].
  destruct Hret as [h' Hrun]; [apply example_heap_pre; by right|].
  destruct (Hframe h' Hrun) as [Happ Hrest].
  destruct (Hrest [5%positive; 6%positive; 7%positive] [12%positive])
    as (al' & Htab & _ & [new ->] & Hold & _); [by vm_compute..|].
  exists h'. split_and!; [done| |by exists new|].
  - etrans; [by apply Happ; vm_compute|]. by vm_compute.
  - apply Hold; [left|by vm_compute|].
    intros Hin. repeat (apply elem_of_cons in Hin as [?|Hin]); try done.
    by apply elem_of_nil in Hin.
Defined.

(** [add_route("/users", handler)] on the first sample application. *)
Lemma add_route_defaults_witness :
  ∃ h' r rt,
    call_add_route [] 1%positive "/users" 8%positive
      (mk_add_route_kwargs None None None) example_heap = Ok (tt, h') ∧
    table h' 1%positive = Some [r] ∧ route_at h' r = Some rt ∧
    methods rt = ["GET"] ∧ include_in_schema rt = true.
Proof.
  destruct (add_route_defaults [] 1%positive "/users" 8%positive
              (mk_add_route_kwargs None None None) example_heap [])
    as (h' & r & rt & Hrun & _ & Htab & Hrt & _ & _ & Hm & Hv);
    [by vm_compute|].
  exists h', r, rt. split_and!; [done..| |]; [by apply Hm|by apply Hv].
Defined.

(** [add_route("/users", handler, methods=["POST"],
    include_in_schema=False)]. *)
Lemma add_route_no_name_witness :
  ∃ h' r rt,
    call_add_route [] 1%positive "/users" 8%positive
      (mk_add_route_kwargs (Some (Some ["POST"])) None (Some false))
      example_heap = Ok (tt, h') ∧
    table h' 1%positive = Some [r] ∧ route_at h' r = Some rt ∧
    name rt = None.
Proof.
  destruct (add_route_no_name [] 1%positive "/users" 8%positive
              (mk_add_route_kwargs (Some (Some ["POST"])) None (Some false))
              example_heap [])
    as (h' & r & rt & Hrun & _ & Htab & Hrt & Hname & _);
    [by vm_compute|done|].
  by exists h', r, rt.
Defined.

(** [add_route("/users", handler, methods=[], name="users")]. *)
Lemma add_route_methods_nonempty_witness :
  ∃ h' r rt,
    call_add_route [] 1%positive "/users" 8%positive
      (mk_add_route_kwargs (Some (Some [])) (Some (Some "users")) None)
      example_heap = Ok (tt, h') ∧
    table h' 1%positive = Some [r] ∧ route_at h' r = Some rt ∧
    methods rt = ["GET"].
Proof.
  destruct (add_route_methods_nonempty [] 1%positive "/users" 8%positive
              (mk_add_route_kwargs (Some (Some [])) (Some (Some "users")) None)
              example_heap [])
    as (h' & r & rt & Hrun & _ & Htab & Hrt & _ & Hget & _);
    [by vm_compute|].
  exists h', r, rt. split_and!; [done..|]. apply Hget. by right; right.
Defined.

(** * Further properties *)

(** ** The constructor *)

Section ConstructorProperties.

Implicit Types (h : heap) (l app lst : loc).

Lemma fresh_unallocated h : h !! fresh (dom h) = None.
Proof. apply not_elem_of_dom, is_fresh. Qed.

(** [FastAPI(routes=lst)] keeps the caller's list: when [routes] refers to
    a list that is not empty, the new application's [routes] attribute is
    that very object, so its route table is the caller's list and not a
    copy; the constructor allocates the application object and writes
    nothing else. *)
Theorem FastAPI_init_keeps_callers_list dbg l ttl dsc ver ourl otags durl rurl
    ext h x xs :
  h !! l = Some (OList (x :: xs)) →
  ∃ app h',
    FastAPI_init dbg (Some l) ttl dsc ver ourl otags durl rurl ext h
      = Ok (app, h') ∧
    h !! app = None ∧ routes_of h' app = Some l ∧
    table h' app = Some (x :: xs) ∧
    (∀ y, y ≠ app → h' !! y = h !! y).
Proof.
  intros Hl.
  set (app := fresh (dom h)).
  pose proof (fresh_unallocated h) as Happ. fold app in Happ.
  assert (app ≠ l) as Hne by congruence.
  eexists app, _. split_and!.
  - unfold FastAPI_init, routes_or_new, mbind, M_bind, load. by rewrite Hl.
  - done.
  - unfold routes_of. by rewrite lookup_insert_eq.
  - unfold table, routes_of, list_at. rewrite lookup_insert_eq. simpl.
    rewrite lookup_insert_ne by done. by rewrite Hl.
  - intros y Hy. by rewrite lookup_insert_ne.
Qed.

(** [FastAPI()] and [FastAPI(routes=[])] give the application a new, empty
    list of its own: the [routes] attribute refers to a list object that did
    not exist before, and an empty list passed by the caller is left alone
    and is not the application's table. *)
Theorem FastAPI_init_new_list dbg rts ttl dsc ver ourl otags durl rurl ext h :
  rts = None ∨ (∃ l, rts = Some l ∧ h !! l = Some (OList [])) →
  ∃ app lst h',
    FastAPI_init dbg rts ttl dsc ver ourl otags durl rurl ext h
      = Ok (app, h') ∧
    h !! lst = None ∧ h !! app = None ∧ lst ≠ app ∧
    rts ≠ Some lst ∧
    routes_of h' app = Some lst ∧ table h' app = Some [] ∧
    (∀ y, y ≠ app → y ≠ lst → h' !! y = h !! y).
Proof.
  intros Hrts.
  set (lst := fresh (dom h)).
  pose proof (fresh_unallocated h) as Hlst. fold lst in Hlst.
  set (h1 := <[lst:=OList []]> h).
  set (app := fresh (dom h1)).
  pose proof (fresh_unallocated h1) as Happ. fold app in Happ.
  assert (lst ≠ app) as Hne.
  { intros Heq. rewrite <-Heq in Happ. unfold h1 in Happ.
    by rewrite lookup_insert_eq in Happ. }
  assert (h !! app = None) as Happ0.
  { unfold h1 in Happ. by rewrite lookup_insert_ne in Happ. }
  eexists app, lst, _. split_and!.
  - unfold FastAPI_init, routes_or_new, mbind, M_bind, load.
    destruct Hrts as [->|(l & -> & Hl)]; [|rewrite Hl]; done.
  - done.
  - done.
  - done.
  - destruct Hrts as [->|(l & -> & Hl)]; [done|]. intros [= ->]. congruence.
  - unfold routes_of. by rewrite lookup_insert_eq.
  - unfold table, routes_of, list_at. rewrite lookup_insert_eq. simpl.
    rewrite lookup_insert_ne by done. unfold h1. by rewrite lookup_insert_eq.
  - intros y Hy1 Hy2. rewrite lookup_insert_ne by done. unfold h1.
    by rewrite lookup_insert_ne.
Qed.

End ConstructorProperties.

(** ** Route registration, continued *)

Section AddRouteFrame.

Variable default_tags : list string.

Implicit Types (h : heap) (self r la : loc) (al : list loc).

(** The heap after [add_route]. *)
Lemma add_route_effect self path' endpoint' methods' name' visible h la al :
  routes_of h self = Some la → h !! la = Some (OList al) →
  add_route default_tags self path' endpoint' methods' name' visible h =
    Ok (tt, <[la:=OList (al ++ [fresh (dom h)])]>
              (<[fresh (dom h):=OAPIRoute
                   (APIRoute_init default_tags path' endpoint'
                      (or_list methods' ["GET"]) name' visible)]> h)).
Proof.
  intros Hs Hal.
  pose proof (fresh_unallocated h) as Hr.
  set (r := fresh (dom h)) in *.
  assert (r ≠ la) by congruence.
  assert (r ≠ self).
  { intros ->. unfold routes_of in Hs. by rewrite Hr in Hs. }
  unfold add_route. apply bind_Ok. eexists r, _. split; [done|].
  apply bind_Ok. eexists la, _. split.
  - apply getattr_routes_Ok. split; [|done].
    unfold routes_of in *. by rewrite lookup_insert_ne.
  - apply list_append_Ok. exists al. by rewrite lookup_insert_ne.
Qed.

Lemma routes_of_list_ne h self la al :
  routes_of h self = Some la → h !! la = Some (OList al) → la ≠ self.
Proof. intros Hs Hal ->. unfold routes_of in Hs. by rewrite Hal in Hs. Qed.

(** [add_route] creates exactly one object, the new route, appends exactly
    its reference after the entries that the table had, and writes to no
    other object: every object that existed before, the application object
    and the routes registered earlier included, is unchanged. *)
Theorem add_route_frame self path' endpoint' kw h al :
  table h self = Some al →
  ∃ h' r,
    call_add_route default_tags self path' endpoint' kw h = Ok (tt, h') ∧
    h !! r = None ∧ dom h' = dom h ∪ {[r]} ∧
    table h' self = Some (al ++ [r]) ∧
    h' !! self = h !! self ∧
    (∀ y, is_Some (h !! y) → routes_of h self ≠ Some y → h' !! y = h !! y).
Proof.
  intros (la & Hs & Hal)%table_Some.
  pose proof (fresh_unallocated h) as Hr.
  pose proof (routes_of_list_ne _ _ _ _ Hs Hal) as Hla.
  exists (<[la:=OList (al ++ [fresh (dom h)])]>
            (<[fresh (dom h):=OAPIRoute
                 (APIRoute_init default_tags path' endpoint'
                    (or_list (default None (kw_methods kw)) ["GET"])
                    (default None (kw_name kw))
                    (default true (kw_include_in_schema kw)))]> h)),
    (fresh (dom h)).
  set (r := fresh (dom h)) in *.
  assert (r ≠ self).
  { intros ->. unfold routes_of in Hs. by rewrite Hr in Hs. }
  split_and!.
  - unfold call_add_route. by apply add_route_effect.
  - done.
  - rewrite !dom_insert_L.
    assert (la ∈ dom h) by (apply elem_of_dom; eauto). set_solver.
  - apply table_Some. exists la. split; [|by rewrite lookup_insert_eq].
    unfold routes_of in *. by rewrite !lookup_insert_ne by done.
  - by rewrite !lookup_insert_ne by done.
  - intros y [o Hy] Hne. rewrite !lookup_insert_ne; [done|congruence|congruence].
Qed.

(** A setup script that registers routes one after the other returns; the
    table then holds, after its former entries, one new reference per call,
    in the order of the calls and without repetition; each new route object
    is the one its call describes; nothing that existed before is changed
    except the application's list. *)
Theorem add_routes_in_order self regs h al :
  table h self = Some al →
  ∃ h' rs,
    add_routes default_tags self regs h = Ok (tt, h') ∧
    table h' self = Some (al ++ rs) ∧
    NoDup rs ∧ Forall (λ r, h !! r = None) rs ∧
    Forall2 (λ reg r,
               route_at h' r = Some (registered_route default_tags reg))
            regs rs ∧
    (∀ y, is_Some (h !! y) → routes_of h self ≠ Some y → h' !! y = h !! y).
Proof.
  revert h al. induction regs as [|reg regs IH]; intros h al Hal.
  { exists h, []. rewrite app_nil_r. split_and!; try done; constructor. }
  pose proof Hal as (la & Hs & Hla)%table_Some.
  pose proof (fresh_unallocated h) as Hr.
  pose proof (routes_of_list_ne _ _ _ _ Hs Hla) as Hne.
  set (r := fresh (dom h)) in *.
  set (rt := registered_route default_tags reg).
  set (h1 := <[la:=OList (al ++ [r])]> (<[r:=OAPIRoute rt]> h)).
  assert (r ≠ self).
  { intros ->. unfold routes_of in Hs. by rewrite Hr in Hs. }
  assert (r ≠ la) by congruence.
  assert (call_add_route default_tags self (reg_path reg) (reg_endpoint reg)
            (reg_kw reg) h = Ok (tt, h1)) as Hcall.
  { unfold call_add_route. by apply add_route_effect. }
  assert (routes_of h1 self = Some la) as Hs1.
  { unfold h1, routes_of in *. by rewrite !lookup_insert_ne by done. }
  assert (table h1 self = Some (al ++ [r])) as Hal1.
  { apply table_Some. exists la. split; [done|].
    unfold h1. by rewrite lookup_insert_eq. }
  destruct (IH h1 (al ++ [r]) Hal1)
    as (h' & rs & Hrun & Htab & Hnd & Hnew & Hreg & Hframe).
  assert (∀ y, is_Some (h !! y) → is_Some (h1 !! y)) as Hmono.
  { intros y Hy. unfold h1. rewrite !lookup_insert_is_Some.
    destruct (decide (la = y)); [by left|]. right. split; [done|].
    destruct (decide (r = y)); [by left|by right]. }
  assert (h1 !! r = Some (OAPIRoute rt)) as Hr1.
  { unfold h1. rewrite lookup_insert_ne by done. by rewrite lookup_insert_eq. }
  exists h', (r :: rs). split_and!.
  - simpl. unfold mbind, M_bind. by rewrite Hcall.
  - rewrite Htab. by rewrite <-(assoc_L (++)).
  - constructor; [|done]. intros Hin.
    rewrite Forall_forall in Hnew. specialize (Hnew r Hin). congruence.
  - constructor; [done|]. eapply Forall_impl; [done|].
    intros y Hy. simpl in *. destruct (h !! y) eqn:E; [|done].
    destruct (Hmono y) as [? ?]; [eauto|congruence].
  - constructor; [|done].
    unfold route_at. rewrite Hframe; [by rewrite Hr1|eauto|congruence].
  - intros y Hy Hy'. rewrite Hframe; [|by apply Hmono|congruence].
    destruct Hy as [o Hy]. unfold h1.
    rewrite !lookup_insert_ne; [done|congruence|congruence].
Qed.

End AddRouteFrame.

(** ** The constructor and the operations on the route table *)

Section ConstructorComposition.

Context `{SetIteration}.

Variable default_tags : list string.

Implicit Types (h : heap) (l app lst : loc).

(** The heap after the constructor, when [routes] is kept. *)
Lemma FastAPI_init_kept dbg l ttl dsc ver ourl otags durl rurl ext h o :
  h !! l = Some o → o ≠ OList [] →
  FastAPI_init dbg (Some l) ttl dsc ver ourl otags durl rurl ext h =
    Ok (fresh (dom h),
        <[fresh (dom h):=OFastAPI
            (mkFastAPI dbg ttl dsc ver ourl (or_list otags []) durl rurl l
               ext)]> h).
Proof.
  intros Hl Ho.
  unfold FastAPI_init, routes_or_new, mbind, M_bind, load. rewrite Hl.
  destruct o as [| | |[|]|]; done.
Qed.

(** An application built on a caller's non-empty list registers its routes
    in that list: after [app = FastAPI(routes=lst)] and [app.add_route(...)]
    the caller's list object has the new route appended, and so has the
    table of every router or application whose [routes] is that list. *)
Theorem add_route_writes_callers_list dbg l ttl dsc ver ourl otags durl rurl
    ext path' endpoint' kw h x xs :
  h !! l = Some (OList (x :: xs)) →
  ∃ app h1 h2 r,
    FastAPI_init dbg (Some l) ttl dsc ver ourl otags durl rurl ext h
      = Ok (app, h1) ∧
    call_add_route default_tags app path' endpoint' kw h1 = Ok (tt, h2) ∧
    h !! r = None ∧
    list_at h2 l = Some (x :: xs ++ [r]) ∧
    table h2 app = Some (x :: xs ++ [r]) ∧
    (∀ holder, routes_of h holder = Some l →
               table h2 holder = Some (x :: xs ++ [r])).
Proof.
  intros Hl.
  pose proof (FastAPI_init_kept dbg l ttl dsc ver ourl otags durl rurl ext h
                _ Hl) as Hinit.
  pose proof (fresh_unallocated h) as Happ.
  set (app := fresh (dom h)) in *.
  set (a := mkFastAPI dbg ttl dsc ver ourl (or_list otags []) durl rurl l ext)
    in *.
  set (h1 := <[app:=OFastAPI a]> h) in *.
  assert (app ≠ l) by congruence.
  assert (routes_of h1 app = Some l) as Hs.
  { unfold routes_of, h1. by rewrite lookup_insert_eq. }
  assert (h1 !! l = Some (OList (x :: xs))) as Hl1.
  { unfold h1. by rewrite lookup_insert_ne. }
  pose proof (add_route_effect default_tags app path' endpoint'
                (default None (kw_methods kw)) (default None (kw_name kw))
                (default true (kw_include_in_schema kw)) h1 l (x :: xs) Hs Hl1)
    as Hadd.
  pose proof (fresh_unallocated h1) as Hr.
  set (r := fresh (dom h1)) in *.
  assert (r ≠ l) by congruence.
  assert (r ≠ app).
  { intros Heq. rewrite Heq in Hr. unfold h1 in Hr.
    by rewrite lookup_insert_eq in Hr. }
  eexists app, h1, _, r. split_and!.
  - by apply Hinit.
  - exact Hadd.
  - unfold h1 in Hr. by rewrite lookup_insert_ne in Hr.
  - unfold list_at. by rewrite lookup_insert_eq.
  - apply table_Some. exists l. split; [|by rewrite lookup_insert_eq].
    unfold routes_of in *. by rewrite !lookup_insert_ne by done.
  - intros holder Hholder. apply table_Some. exists l.
    split; [|by rewrite lookup_insert_eq].
    assert (holder ≠ l).
    { intros ->. unfold routes_of in Hholder. by rewrite Hl in Hholder. }
    assert (holder ≠ app).
    { intros ->. unfold routes_of in Hholder. by rewrite Happ in Hholder. }
    assert (holder ≠ r).
    { intros ->. unfold h1 in Hr. rewrite lookup_insert_ne in Hr by done.
      unfold routes_of in Hholder. by rewrite Hr in Hholder. }
    unfold routes_of, h1 in *. by rewrite !lookup_insert_ne by done.
Qed.

(** An empty list passed to the constructor is not shared: after
    [app = FastAPI(routes=lst)] with [lst] empty and [app.add_route(...)],
    [lst] is still empty and the route is in a list of the application's
    own. *)
Theorem add_route_spares_empty_list dbg l ttl dsc ver ourl otags durl rurl
    ext path' endpoint' kw h :
  h !! l = Some (OList []) →
  ∃ app h1 h2 r,
    FastAPI_init dbg (Some l) ttl dsc ver ourl otags durl rurl ext h
      = Ok (app, h1) ∧
    call_add_route default_tags app path' endpoint' kw h1 = Ok (tt, h2) ∧
    list_at h2 l = Some [] ∧
    table h2 app = Some [r] ∧
    (∀ holder, routes_of h holder = Some l → table h2 holder = Some []).
Proof.
  intros Hl.
  pose proof (fresh_unallocated h) as Hlst.
  set (lst := fresh (dom h)) in *.
  set (h0 := <[lst:=OList []]> h).
  pose proof (fresh_unallocated h0) as Happ.
  set (app := fresh (dom h0)) in *.
  set (a := mkFastAPI dbg ttl dsc ver ourl (or_list otags []) durl rurl lst
              ext).
  set (h1 := <[app:=OFastAPI a]> h0).
  assert (FastAPI_init dbg (Some l) ttl dsc ver ourl otags durl rurl ext h
            = Ok (app, h1)) as Hinit.
  { unfold FastAPI_init, routes_or_new, mbind, M_bind, load. by rewrite Hl. }
  assert (lst ≠ l) by congruence.
  assert (app ≠ lst).
  { intros Heq. rewrite Heq in Happ. unfold h0 in Happ.
    by rewrite lookup_insert_eq in Happ. }
  assert (h !! app = None) as Happ0.
  { unfold h0 in Happ. by rewrite lookup_insert_ne in Happ. }
  assert (app ≠ l) by congruence.
  assert (routes_of h1 app = Some lst) as Hs.
  { unfold routes_of, h1. by rewrite lookup_insert_eq. }
  assert (h1 !! lst = Some (OList [])) as Hlst1.
  { unfold h1, h0. rewrite lookup_insert_ne by done.
    by rewrite lookup_insert_eq. }
  pose proof (add_route_effect default_tags app path' endpoint'
                (default None (kw_methods kw)) (default None (kw_name kw))
                (default true (kw_include_in_schema kw)) h1 lst [] Hs Hlst1)
    as Hadd.
  pose proof (fresh_unallocated h1) as Hr.
  set (r := fresh (dom h1)) in *.
  assert (h1 !! l = Some (OList [])) as Hl1.
  { unfold h1, h0. by rewrite !lookup_insert_ne by done. }
  assert (r ≠ l) by congruence.
  assert (r ≠ lst) by congruence.
  assert (r ≠ app).
  { intros Heq. rewrite Heq in Hr. unfold h1 in Hr.
    by rewrite lookup_insert_eq in Hr. }
  eexists app, h1, _, r. split_and!.
  - exact Hinit.
  - exact Hadd.
  - unfold list_at. rewrite lookup_insert_ne by done.
    rewrite lookup_insert_ne by done. by rewrite Hl1.
  - apply table_Some. exists lst. split; [|by rewrite lookup_insert_eq].
    unfold routes_of in *. by rewrite !lookup_insert_ne by done.
  - intros holder Hholder. apply table_Some. exists l.
    assert (is_Some (h !! holder)) as [oh Hoh].
    { unfold routes_of in Hholder. destruct (h !! holder); [eauto|done]. }
    assert (holder ≠ lst) by congruence.
    assert (holder ≠ app) by congruence.
    assert (h1 !! holder = Some oh) as Hoh1.
    { unfold h1, h0. by rewrite !lookup_insert_ne by done. }
    assert (holder ≠ r) by congruence.
    split.
    + unfold routes_of, h1, h0 in *. by rewrite !lookup_insert_ne by done.
    + by rewrite !lookup_insert_ne by done.
Qed.

(** The constructor does not check what [routes] is.  Given an application
    object instead of a list it returns; the failure comes later:
    [add_route] on the new application raises AttributeError (the object
    has no [append]) and including the new application as a router raises
    TypeError (the object cannot be iterated). *)
Theorem FastAPI_init_unchecked_routes dbg x ttl dsc ver ourl otags durl rurl
    ext h b :
  h !! x = Some (OFastAPI b) →
  ∃ app h1,
    FastAPI_init dbg (Some x) ttl dsc ver ourl otags durl rurl ext h
      = Ok (app, h1) ∧
    routes_of h1 app = Some x ∧
    (∀ path' endpoint' methods' name' visible,
       add_route default_tags app path' endpoint' methods' name' visible h1
         = Raise AttributeError) ∧
    (∀ fuel self prefix tags',
       include_router (S fuel) self app prefix tags' h1 = Raise TypeError).
Proof.
  intros Hx.
  assert (OFastAPI b ≠ OList []) as Hne by done.
  pose proof (FastAPI_init_kept dbg x ttl dsc ver ourl otags durl rurl ext h
                _ Hx Hne) as Hinit.
  pose proof (fresh_unallocated h) as Happ.
  set (app := fresh (dom h)) in *.
  set (a := mkFastAPI dbg ttl dsc ver ourl (or_list otags []) durl rurl x ext)
    in *.
  set (h1 := <[app:=OFastAPI a]> h) in *.
  assert (app ≠ x) by congruence.
  assert (h1 !! x = Some (OFastAPI b)) as Hx1.
  { unfold h1. by rewrite lookup_insert_ne. }
  assert (h1 !! app = Some (OFastAPI a)) as Happ1.
  { unfold h1. by rewrite lookup_insert_eq. }
  exists app, h1. split_and!.
  - exact Hinit.
  - unfold routes_of. by rewrite Happ1.
  - intros path' endpoint' methods' name' visible.
    pose proof (fresh_unallocated h1) as Hr.
    assert (fresh (dom h1) ≠ app) by congruence.
    assert (fresh (dom h1) ≠ x) by congruence.
    unfold add_route, alloc, getattr_routes, list_append, mbind, M_bind, load.
    rewrite lookup_insert_ne by done. rewrite Happ1. simpl.
    rewrite lookup_insert_ne by done. by rewrite Hx1.
  - intros fuel self prefix tags'.
    unfold include_router, getattr_routes, mbind, M_bind, load.
    rewrite Happ1. simpl. unfold mbind, M_bind, load. by rewrite Hx1.
Qed.

End ConstructorComposition.

(** ** Router inclusion, continued *)

Section IncludeRouterFurther.

Context `{SetIteration}.

Implicit Types (h : heap) (x y r self router lst : loc) (l : list loc).

Lemma route_at_Some h x rt :
  route_at h x = Some rt ↔ h !! x = Some (OAPIRoute rt).
Proof.
  unfold route_at. destruct (h !! x) as [[]|]; split; intros; by simplify_eq.
Qed.

Lemma visit_dom self prefix tags' x h u h' :
  visit self prefix tags' x h = Ok (u, h') → dom h' = dom h.
Proof.
  intros [(_ & _ & ->)|(rt & la & al & Hx & Hs & Hl & ->)]%visit_Ok; [done|].
  rewrite !dom_insert_L.
  assert (x ∈ dom h) by (apply elem_of_dom; eauto).
  assert (la ∈ dom h) by (apply elem_of_dom; eauto).
  set_solver.
Qed.

Lemma visit_list_at self prefix tags' x h u h' y :
  visit self prefix tags' x h = Ok (u, h') →
  is_Some (list_at h' y) ↔ is_Some (list_at h y).
Proof.
  intros [(_ & _ & ->)|(rt & la & al & Hx & Hs & Hl & ->)]%visit_Ok; [done|].
  unfold list_at.
  destruct (decide (y = la)) as [->|]; [rewrite lookup_insert_eq, Hl|
    rewrite lookup_insert_ne by done;
    destruct (decide (y = x)) as [->|];
      [rewrite lookup_insert_eq, Hx|by rewrite lookup_insert_ne by done]];
    split; intros [? ?]; by eauto.
Qed.

(** [include_router] creates no object and removes none, and no location
    changes class: a route object stays a route object, a list stays a
    list, and every object that is neither (applications, routers, handlers,
    mounts) is left exactly as it was.  In particular no copy of a route is
    made. *)
Theorem include_router_allocates_nothing fuel self router prefix tags' h h' :
  include_router fuel self router prefix tags' h = Ok (tt, h') →
  dom h' = dom h ∧
  ∀ y, (is_Some (route_at h' y) ↔ is_Some (route_at h y)) ∧
       (is_Some (list_at h' y) ↔ is_Some (list_at h y)) ∧
       (route_at h y = None → list_at h y = None → h' !! y = h !! y).
Proof.
  intros Hrun.
  pose proof Hrun as (rl & Hrl & _ & Hall)%include_router_Ok.
  split; [|intros y; split_and!].
  - revert Hall. apply (visit_all_preserves (λ h0 h1, dom h1 = dom h0));
      [done|congruence|].
    intros x h0 u0 h1. apply visit_dom.
  - revert Hall.
    apply (visit_all_preserves
             (λ h0 h1, is_Some (route_at h1 y) ↔ is_Some (route_at h0 y)));
      [done|intros ??? -> ->; done|].
    intros x h0 u0 h1. apply visit_route_at.
  - revert Hall.
    apply (visit_all_preserves
             (λ h0 h1, is_Some (list_at h1 y) ↔ is_Some (list_at h0 y)));
      [done|intros ??? -> ->; done|].
    intros x h0 u0 h1. apply visit_list_at.
  - intros Hr Hl. eapply visit_all_frame; [done|done|by right].
Qed.

(** [include_router] assigns to [path] and [tags] only: the handler, the
    methods, the name and the visibility flag of every route object are
    what they were, whatever the prefix, the tags and the number of times
    the route is listed. *)
Theorem include_router_keeps_metadata fuel self router prefix tags' h h' :
  include_router fuel self router prefix tags' h = Ok (tt, h') →
  ∀ r rt, route_at h r = Some rt →
    ∃ rt', route_at h' r = Some rt' ∧
      endpoint rt' = endpoint rt ∧ methods rt' = methods rt ∧
      name rt' = name rt ∧ include_in_schema rt' = include_in_schema rt.
Proof.
  intros Hrun r rt Hr.
  destruct (include_router_effect _ _ _ _ _ _ _ _ Hrun)
    as (rl & _ & _ & _ & Hroute & _).
  eexists. split; [by apply Hroute|]. apply iter_import_fixed.
Qed.




(** Entries that are allocated and hold no route object are stepped over
    without any effect. *)
Lemma for_each_skip self prefix tags' lst fuel i h l :
  h !! lst = Some (OList l) →
  (∀ x, x ∈ l → is_Some (h !! x) ∧ route_at h x = None) →
  length l - i < fuel →
  for_each fuel (visit self prefix tags') lst i h = Ok (tt, h).
Proof.
  intros Hl Hskip. revert i.
  induction fuel as [|fuel IH]; intros i Hlen; [lia|].
  simpl. unfold mbind, M_bind, load. rewrite Hl. simpl.
  destruct (l !! i) as [y|] eqn:Hi; [|done].
  destruct (Hskip y) as [[o Ho] Hy]; [by eapply list_elem_of_lookup_2|].
  rewrite (visit_skip _ _ _ _ _ _ Ho Hy).
  apply lookup_lt_Some in Hi. apply IH. lia.
Qed.

(** A router whose table holds no [APIRoute] object (only mounts and the
    like) is included without any effect: the call returns with the heap
    as it was, whatever [self] is, and even when the table is the
    application's own list. *)
Theorem include_router_without_APIRoute fuel self router prefix tags' h l :
  table h router = Some l →
  (∀ x, x ∈ l → is_Some (h !! x) ∧ route_at h x = None) →
  length l < fuel →
  include_router fuel self router prefix tags' h = Ok (tt, h).
Proof.
  intros (lst & Hr & Hl)%table_Some Hskip Hlen.
  unfold include_router. apply bind_Ok. exists lst, h.
  split; [by apply getattr_routes_Ok|].
  eapply for_each_skip; [done..|lia].
Qed.

(** Including a router into an application whose route table is the
    router's own list object never returns as soon as the table holds one
    [APIRoute] object: each visit of a route appends a reference to the
    list being iterated, so the loop runs out of any amount of fuel, without
    raising.  This is the case of an application included into itself. *)
Theorem include_router_shared_table_never_returns fuel self router prefix
    tags' h lst l x :
  routes_of h router = Some lst → routes_of h self = Some lst →
  h !! lst = Some (OList l) →
  (∀ y, y ∈ l → is_Some (h !! y)) →
  x ∈ l → is_Some (route_at h x) →
  include_router fuel self router prefix tags' h = OutOfFuel.
Proof.
  intros Hr Hs Hl Hal [j Hj]%list_elem_of_lookup Hx.
  unfold include_router. unfold mbind at 1, M_bind at 1.
  assert (getattr_routes router h = Ok (lst, h)) as ->
    by by apply getattr_routes_Ok.
  eapply (for_each_aliased_diverges _ _ _ _ _ 0 _ l j x); [done..|lia|done|done].
Qed.


End IncludeRouterFurther.

(** ** Registration followed by inclusion *)

Section RegisterThenInclude.

Context `{SetIteration}.

Variable default_tags : list string.

Implicit Types (h : heap) (x y r : loc) (l : list loc).

Lemma concrete_routes_ext h h' l :
  (∀ x, x ∈ l → is_Some (route_at h' x) ↔ is_Some (route_at h x)) →
  concrete_routes h' l = concrete_routes h l.
Proof.
  induction l as [|x l IH]; intros Hext; [done|].
  assert (concrete_routes h' l = concrete_routes h l) as IH'.
  { apply IH. intros y Hy. apply Hext. by right. }
  unfold concrete_routes in *.
  destruct (decide (is_Some (route_at h x))) as [Hx|Hx].
  - rewrite !filter_cons_True; [by rewrite IH'|done|]. apply Hext; [left|done].
  - rewrite !filter_cons_False; [done|done|]. intros Hx'. apply Hx.
    apply Hext; [left|done].
Qed.

Lemma times_app x l1 l2 : times x (l1 ++ l2) = times x l1 + times x l2.
Proof. unfold times. by rewrite filter_app, length_app. Qed.

(** A route registered on an application B with [add_route] and then
    imported into an application A by [A.include_router(B, prefix=P, ...)]
    ends up last in A's table, after A's former entries and the routes that
    B already had; it is the object created by [add_route], with the path P
    followed by the registered path, and with the handler, methods, name
    and visibility of the registration. *)
Theorem add_route_then_include_router fuel appA appB prefix tags' path'
    endpoint' kw h al bl :
  table h appA = Some al → table h appB = Some bl →
  routes_of h appA ≠ routes_of h appB →
  (∀ x, x ∈ bl → is_Some (h !! x)) →
  S (length bl) < fuel →
  ∃ h1 h2 r rt,
    call_add_route default_tags appB path' endpoint' kw h = Ok (tt, h1) ∧
    include_router fuel appA appB prefix tags' h1 = Ok (tt, h2) ∧
    h !! r = None ∧
    table h2 appA = Some (al ++ concrete_routes h bl ++ [r]) ∧
    table h2 appB = Some (bl ++ [r]) ∧
    route_at h2 r = Some rt ∧
    path rt = prefix +:+ path' ∧ endpoint rt = endpoint' ∧
    methods rt = or_list (default None (kw_methods kw)) ["GET"] ∧
    name rt = default None (kw_name kw) ∧
    include_in_schema rt = default true (kw_include_in_schema kw).
Proof.
  intros (la & HsA & Hla)%table_Some (lb & HsB & Hlb)%table_Some Hne Halloc
    Hfuel.
  assert (la ≠ lb) as Hlab by congruence.
  pose proof (add_route_effect default_tags appB path' endpoint'
                (default None (kw_methods kw)) (default None (kw_name kw))
                (default true (kw_include_in_schema kw)) h lb bl HsB Hlb)
    as Hadd.
  pose proof (fresh_unallocated h) as Hr.
  set (r := fresh (dom h)) in *.
  set (rt0 := APIRoute_init default_tags path' endpoint'
                (or_list (default None (kw_methods kw)) ["GET"])
                (default None (kw_name kw))
                (default true (kw_include_in_schema kw))) in *.
  set (h1 := <[lb:=OList (bl ++ [r])]> (<[r:=OAPIRoute rt0]> h)) in *.
  assert (r ≠ la) by congruence.
  assert (r ≠ lb) by congruence.
  assert (r ≠ appA).
  { intros ->. unfold routes_of in HsA. by rewrite Hr in HsA. }
  assert (r ≠ appB).
  { intros ->. unfold routes_of in HsB. by rewrite Hr in HsB. }
  pose proof (routes_of_list_ne _ _ _ _ HsA Hla) as HlaA.
  pose proof (routes_of_list_ne _ _ _ _ HsB Hlb) as HlbB.
  assert (lb ≠ appA).
  { intros ->. unfold routes_of in HsA. by rewrite Hlb in HsA. }
  assert (la ≠ appB).
  { intros ->. unfold routes_of in HsB. by rewrite Hla in HsB. }
  assert (routes_of h1 appA = Some la) as HsA1.
  { unfold routes_of, h1 in *. by rewrite !lookup_insert_ne by done. }
  assert (routes_of h1 appB = Some lb) as HsB1.
  { unfold routes_of, h1 in *. by rewrite !lookup_insert_ne by done. }
  assert (h1 !! la = Some (OList al)) as Hla1.
  { unfold h1. by rewrite !lookup_insert_ne by done. }
  assert (h1 !! lb = Some (OList (bl ++ [r]))) as Hlb1.
  { unfold h1. by rewrite lookup_insert_eq. }
  assert (h1 !! r = Some (OAPIRoute rt0)) as Hr1.
  { unfold h1. rewrite lookup_insert_ne by done. by rewrite lookup_insert_eq. }
  assert (r ∉ bl) as Hrbl.
  { intros Hin. destruct (Halloc r Hin) as [? ?]. congruence. }
  assert (include_pre h1 appA appB fuel) as Hpre.
  { exists lb, (bl ++ [r]), la, al. split_and!; try done.
    - intros x [Hx|Hx]%elem_of_app.
      + unfold h1. rewrite !lookup_insert_is_Some.
        destruct (decide (lb = x)); [by left|]. right. split; [done|].
        destruct (decide (r = x)); [by left|]. right. split; [done|].
        by apply Halloc.
      + apply list_elem_of_singleton in Hx as ->. by rewrite Hr1.
    - rewrite length_app. simpl. lia. }
  destruct (include_router_returns fuel appA appB prefix tags' h1 Hpre)
    as [h2 Hrun].
  destruct (include_router_effect _ _ _ _ _ _ _ _ Hrun)
    as (rl & Hrl & Hrl' & Htab & Hroute & _).
  assert (table h1 appB = Some (bl ++ [r])) as HtB
    by (apply table_Some; eauto).
  assert (rl = bl ++ [r]) as -> by congruence.
  assert (concrete_routes h1 (bl ++ [r]) = concrete_routes h bl ++ [r]) as Hconc.
  { unfold concrete_routes at 1. rewrite filter_app.
    fold (concrete_routes h1 bl). f_equal.
    - apply concrete_routes_ext. intros x Hx.
      assert (x ≠ r) by (intros ->; done).
      unfold route_at, h1.
      destruct (decide (x = lb)) as [->|].
      + rewrite lookup_insert_eq, Hlb. split; intros [? ?]; done.
      + by rewrite !lookup_insert_ne by done.
    - rewrite filter_cons_True; [done|].
      unfold route_at. rewrite Hr1. eauto. }
  exists h1, h2, r, (import_route prefix tags' rt0).
  assert (times r (bl ++ [r]) = 1) as Hone.
  { rewrite times_app, times_0 by done. by rewrite times_cons_eq. }
  assert (route_at h2 r = Some (import_route prefix tags' rt0)) as Hr2.
  { rewrite (Hroute r rt0); [by rewrite Hone|]. by apply route_at_Some. }
  split_and!; try done.
  rewrite <-Hconc. apply Htab. apply table_Some. eauto.
Qed.

End RegisterThenInclude.

(** ** Applications built without a route list *)

Section SeparateTables.

Variable default_tags : list string.

Implicit Types (h : heap).

(** The heap after the constructor, when a new list is created. *)
Lemma FastAPI_init_created dbg ttl dsc ver ourl otags durl rurl ext h :
  FastAPI_init dbg None ttl dsc ver ourl otags durl rurl ext h =
    Ok (fresh (dom (<[fresh (dom h):=OList []]> h)),
        <[fresh (dom (<[fresh (dom h):=OList []]> h)):=OFastAPI
            (mkFastAPI dbg ttl dsc ver ourl (or_list otags []) durl rurl
               (fresh (dom h)) ext)]> (<[fresh (dom h):=OList []]> h)).
Proof. done. Qed.

(** Two applications built without [routes] never share a route table:
    each call of the constructor evaluates [[]] anew, so a route registered
    on the second application does not show up in the first. *)
Theorem FastAPI_init_separate_tables dbg1 ttl1 dsc1 ver1 ourl1 otags1 durl1
    rurl1 ext1 dbg2 ttl2 dsc2 ver2 ourl2 otags2 durl2 rurl2 ext2 path'
    endpoint' kw h :
  ∃ app1 app2 h1 h2 h3 r,
    FastAPI_init dbg1 None ttl1 dsc1 ver1 ourl1 otags1 durl1 rurl1 ext1 h
      = Ok (app1, h1) ∧
    FastAPI_init dbg2 None ttl2 dsc2 ver2 ourl2 otags2 durl2 rurl2 ext2 h1
      = Ok (app2, h2) ∧
    call_add_route default_tags app2 path' endpoint' kw h2 = Ok (tt, h3) ∧
    app1 ≠ app2 ∧ routes_of h2 app1 ≠ routes_of h2 app2 ∧
    table h2 app1 = Some [] ∧ table h2 app2 = Some [] ∧
    table h3 app1 = Some [] ∧ table h3 app2 = Some [r].
Proof.
  pose proof (FastAPI_init_created dbg1 ttl1 dsc1 ver1 ourl1 otags1 durl1
                rurl1 ext1 h) as Hinit1.
  pose proof (fresh_unallocated h) as Hl1.
  set (l1 := fresh (dom h)) in *.
  set (h0 := <[l1:=OList []]> h) in *.
  pose proof (fresh_unallocated h0) as Ha1.
  set (a1 := fresh (dom h0)) in *.
  set (o1 := OFastAPI (mkFastAPI dbg1 ttl1 dsc1 ver1 ourl1 (or_list otags1 [])
                         durl1 rurl1 l1 ext1)) in *.
  set (h1 := <[a1:=o1]> h0) in *.
  pose proof (FastAPI_init_created dbg2 ttl2 dsc2 ver2 ourl2 otags2 durl2
                rurl2 ext2 h1) as Hinit2.
  pose proof (fresh_unallocated h1) as Hl2.
  set (l2 := fresh (dom h1)) in *.
  set (h1' := <[l2:=OList []]> h1) in *.
  pose proof (fresh_unallocated h1') as Ha2.
  set (a2 := fresh (dom h1')) in *.
  set (o2 := OFastAPI (mkFastAPI dbg2 ttl2 dsc2 ver2 ourl2 (or_list otags2 [])
                         durl2 rurl2 l2 ext2)) in *.
  set (h2 := <[a2:=o2]> h1') in *.
  assert (h0 !! l1 = Some (OList [])) as Hh0l1
    by (unfold h0; by rewrite lookup_insert_eq).
  assert (a1 ≠ l1) as Ha1l1 by congruence.
  assert (h1 !! a1 = Some o1) as Hh1a1
    by (unfold h1; by rewrite lookup_insert_eq).
  assert (h1 !! l1 = Some (OList [])) as Hh1l1
    by (unfold h1; by rewrite lookup_insert_ne).
  assert (l2 ≠ a1) as Hl2a1 by congruence.
  assert (l2 ≠ l1) as Hl2l1 by congruence.
  assert (h1' !! l2 = Some (OList [])) as Hh1l2
    by (unfold h1'; by rewrite lookup_insert_eq).
  assert (h1' !! a1 = Some o1) as Hh1'a1
    by (unfold h1'; by rewrite lookup_insert_ne).
  assert (h1' !! l1 = Some (OList [])) as Hh1'l1
    by (unfold h1'; by rewrite lookup_insert_ne).
  assert (a2 ≠ l2) as Ha2l2 by congruence.
  assert (a2 ≠ a1) as Ha2a1 by congruence.
  assert (a2 ≠ l1) as Ha2l1 by congruence.
  assert (h2 !! a2 = Some o2) as Hh2a2
    by (unfold h2; by rewrite lookup_insert_eq).
  assert (h2 !! a1 = Some o1) as Hh2a1
    by (unfold h2; by rewrite lookup_insert_ne).
  assert (h2 !! l1 = Some (OList [])) as Hh2l1
    by (unfold h2; by rewrite lookup_insert_ne).
  assert (h2 !! l2 = Some (OList [])) as Hh2l2
    by (unfold h2; by rewrite lookup_insert_ne).
  assert (routes_of h2 a1 = Some l1) as Hs1
    by (unfold routes_of; by rewrite Hh2a1).
  assert (routes_of h2 a2 = Some l2) as Hs2
    by (unfold routes_of; by rewrite Hh2a2).
  pose proof (add_route_effect default_tags a2 path' endpoint'
                (default None (kw_methods kw)) (default None (kw_name kw))
                (default true (kw_include_in_schema kw)) h2 l2 [] Hs2 Hh2l2)
    as Hadd.
  pose proof (fresh_unallocated h2) as Hr.
  set (r := fresh (dom h2)) in *.
  assert (r ≠ a1) by congruence.
  assert (r ≠ a2) by congruence.
  assert (r ≠ l1) by congruence.
  assert (r ≠ l2) by congruence.
  eexists a1, a2, h1, h2, _, r. split_and!.
  - exact Hinit1.
  - exact Hinit2.
  - exact Hadd.
  - done.
  - rewrite Hs1, Hs2. congruence.
  - apply table_Some. eauto.
  - apply table_Some. eauto.
  - apply table_Some. exists l1. unfold routes_of.
    rewrite !lookup_insert_ne by done. by rewrite Hh2a1, Hh2l1.
  - apply table_Some. exists l2. unfold routes_of.
    rewrite lookup_insert_eq. rewrite !lookup_insert_ne by done.
    by rewrite Hh2a2.
Qed.

End SeparateTables.

(** ** Concrete runs, continued *)

(** [FastAPI(routes=router.routes)] on the sample heap. *)
Lemma FastAPI_init_keeps_callers_list_witness :
  ∃ app h',
    FastAPI_with_routes (Some 4%positive) example_heap = Ok (app, h') ∧
    routes_of h' app = Some 4%positive ∧
    table h' app = Some [5%positive; 6%positive; 7%positive].
Proof.
  destruct (FastAPI_init_keeps_callers_list false 4%positive "FastAPI" ""
              "0.1.0" (Some "/openapi.json") None (Some "/docs")
              (Some "/redoc") [] example_heap
              5%positive [6%positive; 7%positive])
    as (app & h' & Hrun & _ & Hroutes & Htab & _); [by vm_compute|].
  by exists app, h'.
Defined.

(** [FastAPI(routes=lst)] with the empty list of the sample heap. *)
Lemma FastAPI_init_new_list_witness :
  ∃ app lst h',
    FastAPI_with_routes (Some 2%positive) example_heap = Ok (app, h') ∧
    lst ≠ 2%positive ∧ routes_of h' app = Some lst ∧
    table h' app = Some [].
Proof.
  destruct (FastAPI_init_new_list false (Some 2%positive) "FastAPI" ""
              "0.1.0" (Some "/openapi.json") None (Some "/docs")
              (Some "/redoc") [] example_heap)
    as (app & lst & h' & Hrun & _ & _ & _ & Hne & Hroutes & Htab & _).
  - right. exists 2%positive. split; [done|by vm_compute].
  - exists app, lst, h'. split_and!; [done| |done..].
    intros ->. by apply Hne.
Defined.

(** [add_route("/users", handler)] on the second sample application. *)
Lemma add_route_frame_witness :
  ∃ h' r,
    call_add_route [] 10%positive "/users" 8%positive
      (mk_add_route_kwargs None None None) example_heap = Ok (tt, h') ∧
    table h' 10%positive = Some [12%positive; r] ∧
    h' !! 12%positive = example_heap !! 12%positive.
Proof.
  destruct (add_route_frame [] 10%positive "/users" 8%positive
              (mk_add_route_kwargs None None None) example_heap [12%positive])
    as (h' & r & Hrun & _ & _ & Htab & _ & Hframe); [by vm_compute|].
  exists h', r. split_and!; [done..|].
  apply Hframe; [vm_compute; eauto|by vm_compute].
Defined.

(** Two registrations on the first sample application. *)
Lemma add_routes_in_order_witness :
  ∃ h' r1 r2,
    add_routes [] 1%positive
      [mk_registration "/users" 8%positive (mk_add_route_kwargs None None None);
       mk_registration "/orders" 9%positive
         (mk_add_route_kwargs (Some (Some ["POST"])) None None)]
      example_heap = Ok (tt, h') ∧
    table h' 1%positive = Some [r1; r2] ∧ r1 ≠ r2 ∧
    path <$> route_at h' r1 = Some "/users" ∧
    path <$> route_at h' r2 = Some "/orders".
Proof.
  destruct (add_routes_in_order [] 1%positive
      [mk_registration "/users" 8%positive (mk_add_route_kwargs None None None);
       mk_registration "/orders" 9%positive
         (mk_add_route_kwargs (Some (Some ["POST"])) None None)]
      example_heap [])
    as (h' & rs & Hrun & Htab & Hnd & _ & Hreg & _); [by vm_compute|].
  apply Forall2_cons_inv_l in Hreg as (r1 & rs1 & Hr1 & Hreg & ->).
  apply Forall2_cons_inv_l in Hreg as (r2 & rs2 & Hr2 & Hreg & ->).
  apply Forall2_nil_inv_l in Hreg as ->.
  exists h', r1, r2. split_and!; [done|done| | |].
  - apply NoDup_cons in Hnd as [Hnot _]. intros ->. apply Hnot. left.
  - by rewrite Hr1.
  - by rewrite Hr2.
Defined.

(** An application built on the list of the sample router, then
    [add_route]: the router sees the new route. *)
Lemma add_route_writes_callers_list_witness :
  ∃ app h1 h2 r,
    FastAPI_with_routes (Some 4%positive) example_heap = Ok (app, h1) ∧
    call_add_route [] app "/users" 8%positive
      (mk_add_route_kwargs None None None) h1 = Ok (tt, h2) ∧
    table h2 3%positive = Some [5%positive; 6%positive; 7%positive; r].
Proof.
  destruct (add_route_writes_callers_list [] false 4%positive "FastAPI" ""
              "0.1.0" (Some "/openapi.json") None (Some "/docs")
              (Some "/redoc") [] "/users" 8%positive
              (mk_add_route_kwargs None None None) example_heap
              5%positive [6%positive; 7%positive])
    as (app & h1 & h2 & r & Hinit & Hadd & _ & _ & _ & Hholders);
    [by vm_compute|].
  exists app, h1, h2, r. split_and!; [done..|].
  apply (Hholders 3%positive). by vm_compute.
Defined.

(** An application built on the empty list of the first sample
    application, then [add_route]: that list stays empty. *)
Lemma add_route_spares_empty_list_witness :
  ∃ app h1 h2 r,
    FastAPI_with_routes (Some 2%positive) example_heap = Ok (app, h1) ∧
    call_add_route [] app "/users" 8%positive
      (mk_add_route_kwargs None None None) h1 = Ok (tt, h2) ∧
    table h2 app = Some [r] ∧ table h2 1%positive = Some [].
Proof.
  destruct (add_route_spares_empty_list [] false 2%positive "FastAPI" ""
              "0.1.0" (Some "/openapi.json") None (Some "/docs")
              (Some "/redoc") [] "/users" 8%positive
              (mk_add_route_kwargs None None None) example_heap)
    as (app & h1 & h2 & r & Hinit & Hadd & _ & Htab & Hholders);
    [by vm_compute|].
  exists app, h1, h2, r. split_and!; [done..|].
  apply (Hholders 1%positive). by vm_compute.
Defined.

(** [FastAPI(routes=app)] with the first sample application as [routes]. *)
Lemma FastAPI_init_unchecked_routes_witness :
  ∃ app h1,
    FastAPI_with_routes (Some 1%positive) example_heap = Ok (app, h1) ∧
    add_route [] app "/users" 8%positive None None true h1
      = Raise AttributeError ∧
    include_router 4 10%positive app "/api" None h1 = Raise TypeError.
Proof.
  destruct (FastAPI_init_unchecked_routes [] false 1%positive "FastAPI" ""
              "0.1.0" (Some "/openapi.json") None (Some "/docs")
              (Some "/redoc") [] example_heap
              (mkFastAPI false "A" "" "0.1.0" (Some "/openapi.json") []
                 (Some "/docs") (Some "/redoc") 2%positive []))
    as (app & h1 & Hinit & _ & Hadd & Hincl); [by vm_compute|].
  exists app, h1. split_and!; [done|apply Hadd|apply Hincl].
Defined.

(** The sample router included into the first sample application: the
    heap keeps its locations. *)
Lemma include_router_allocates_nothing_witness :
  ∃ h',
    include_router 4 1%positive 3%positive "/api/v1" (Some ["v1"]) example_heap
      = Ok (tt, h') ∧
    dom h' = dom example_heap.
Proof.
  destruct (include_router_returns 4 1%positive 3%positive "/api/v1"
              (Some ["v1"]) example_heap) as [h' Hrun];
    [apply example_heap_pre; by left|].
  exists h'. split; [done|].
  by destruct (include_router_allocates_nothing _ _ _ _ _ _ _ Hrun).
Defined.

(** The second route of the sample router keeps its two methods. *)
Lemma include_router_keeps_metadata_witness :
  ∃ h' rt',
    include_router 4 1%positive 3%positive "/api/v1" (Some ["v1"]) example_heap
      = Ok (tt, h') ∧
    route_at h' 7%positive = Some rt' ∧
    methods rt' = ["GET"; "DELETE"] ∧ endpoint rt' = 9%positive.
Proof.
  destruct (include_router_returns 4 1%positive 3%positive "/api/v1"
              (Some ["v1"]) example_heap) as [h' Hrun];
    [apply example_heap_pre; by left|].
  destruct (include_router_keeps_metadata _ _ _ _ _ _ _ Hrun 7%positive
              (mkAPIRoute "/items/{id}" 9%positive ["GET"; "DELETE"] None true
                 []))
    as (rt' & Hrt & He & Hm & _); [by vm_compute|].
  by exists h', rt'.
Defined.


(** The router that only holds mounts. *)
Lemma include_router_without_APIRoute_witness :
  include_router 3 1%positive 3%positive "/api" (Some ["v1"]) mounts_only_heap
    = Ok (tt, mounts_only_heap).
Proof.
  apply (include_router_without_APIRoute 3 1%positive 3%positive "/api"
           (Some ["v1"]) mounts_only_heap [7%positive; 8%positive]).
  - by vm_compute.
  - intros x Hx. repeat (apply elem_of_cons in Hx as [->|Hx]);
      [vm_compute; eauto..|by apply elem_of_nil in Hx].
  - simpl. lia.
Defined.

(** The second sample application included into itself. *)
Lemma include_router_shared_table_never_returns_witness :
  include_router 1000 10%positive 10%positive "/api" None example_heap
    = OutOfFuel.
Proof.
  apply (include_router_shared_table_never_returns 1000 10%positive
           10%positive "/api" None example_heap 11%positive [12%positive]
           12%positive).
  - by vm_compute.
  - by vm_compute.
  - by vm_compute.
  - intros y ->%list_elem_of_singleton. vm_compute. eauto.
  - left.
  - vm_compute. eauto.
Defined.


(** A route registered on the second sample application and imported into
    the first one under "/api". *)
Lemma add_route_then_include_router_witness :
  ∃ h1 h2 r rt,
    call_add_route [] 10%positive "/users" 8%positive
      (mk_add_route_kwargs (Some (Some ["POST"])) None None) example_heap
      = Ok (tt, h1) ∧
    include_router 4 1%positive 10%positive "/api" None h1 = Ok (tt, h2) ∧
    table h2 1%positive = Some [12%positive; r] ∧
    route_at h2 r = Some rt ∧
    path rt = "/api/users" ∧ methods rt = ["POST"].
Proof.
  destruct (add_route_then_include_router [] 4 1%positive 10%positive "/api"
              None "/users" 8%positive
              (mk_add_route_kwargs (Some (Some ["POST"])) None None)
              example_heap [] [12%positive])
    as (h1 & h2 & r & rt & Hadd & Hrun & _ & Htab & _ & Hrt & Hp & _ & Hm & _).
  - by vm_compute.
  - by vm_compute.
  - by vm_compute.
  - intros x ->%list_elem_of_singleton. vm_compute. eauto.
  - simpl. lia.
  - exists h1, h2, r, rt. split_and!; [done..| | | |]; [|done..].
    rewrite Htab. by vm_compute.
Defined.
